(** * mcp-internet-archive: input validation, process invocation and the
      four tool handlers, embedded from the TypeScript sources

    - [src/utils/sanitize.ts]   the validators
    - [src/utils/ia-runner.ts]  executable resolution, [checkIaAvailable], [runIa]
    - [src/tools/*.ts]          [handleSearch], [handleMetadata], [handleList],
                                [handleDownload]

    JavaScript strings are sequences of UTF-16 code units, numbers are IEEE 754
    binary64 values ([spec_float] at precision 53), thrown [Error]s are values
    of a result type, and everything the code asks of its host (child
    processes, the file system, the console) goes through an oracle that may
    answer differently on every call. *)

From Stdlib Require Import ZArith NArith PArith List Bool Ascii String Lia.
From Stdlib Require Import DecimalString.
From Stdlib Require Import Floats.SpecFloat.
Import ListNotations.

Open Scope string_scope.
Open Scope list_scope.

(* ================================================================== *)
(** * Part I: definitions                                              *)
(* ================================================================== *)

(** ** JavaScript strings *)

Module JsString.

(** A string value: its UTF-16 code units. *)
Definition jsstring := list N.

(** An ASCII literal of the source, as code units. *)
Definition lit (s : string) : jsstring :=
  map N_of_ascii (list_ascii_of_string s).

(** [WhiteSpace] and [LineTerminator] of ECMAScript, the code units that
    [String.prototype.trim] strips. *)
Definition isWhiteSpace (c : N) : bool :=
  ((9 <=? c) && (c <=? 13)           (* TAB LF VT FF CR *)
   || (c =? 32) || (c =? 160)        (* SP NBSP *)
   || (c =? 5760)                    (* U+1680 *)
   || ((8192 <=? c) && (c <=? 8202)) (* U+2000 .. U+200A *)
   || (c =? 8232) || (c =? 8233)     (* LS PS *)
   || (c =? 8239) || (c =? 8287)     (* U+202F U+205F *)
   || (c =? 12288) || (c =? 65279)   (* U+3000 U+FEFF *))%N.

Fixpoint trimStart (s : jsstring) : jsstring :=
  match s with
  | c :: s' => if isWhiteSpace c then trimStart s' else s
  | [] => []
  end.

Definition trimEnd (s : jsstring) : jsstring :=
  rev (trimStart (rev s)).

(** [s.trim()] *)
Definition trim (s : jsstring) : jsstring := trimEnd (trimStart s).

(** Truthiness of a string: [""] is falsy. *)
Definition truthy (s : jsstring) : bool :=
  match s with [] => false | _ :: _ => true end.

(** [s.split(sep)] for a separator of one code unit; the empty string splits
    into one empty piece. *)
Fixpoint split (sep : N) (s : jsstring) : list jsstring :=
  match s with
  | [] => [[]]
  | c :: s' =>
      if (c =? sep)%N then [] :: split sep s'
      else match split sep s' with
           | l :: ls => (c :: l) :: ls
           | [] => [[c]]
           end
  end.

(** [parts.join(sep)] *)
Fixpoint join (sep : jsstring) (parts : list jsstring) : jsstring :=
  match parts with
  | [] => []
  | [p] => p
  | p :: ps => p ++ sep ++ join sep ps
  end.

Fixpoint startsWith (s p : jsstring) : bool :=
  match p, s with
  | [], _ => true
  | a :: p', b :: s' => (a =? b)%N && startsWith s' p'
  | _ :: _, [] => false
  end.

Definition endsWith (s p : jsstring) : bool :=
  startsWith (rev s) (rev p).

(** [s.includes(sub)] *)
Fixpoint includes (s sub : jsstring) : bool :=
  startsWith s sub
  || match s with
     | [] => false
     | _ :: s' => includes s' sub
     end.

(** [s.split(/\r?\n/)[0]]: the text before the first LF, without the CR that
    immediately precedes that LF. *)
Fixpoint firstLine (s : jsstring) : jsstring :=
  match s with
  | [] => []
  | c :: s' =>
      if (c =? 10)%N then []
      else if (c =? 13)%N && startsWith s' [10%N] then []
      else c :: firstLine s'
  end.

(** ASCII lower-casing, used to look for a name whatever its capitals. *)
Definition asciiLower (s : jsstring) : jsstring :=
  map (fun c => if ((65 <=? c) && (c <=? 90))%N then (c + 32)%N else c) s.

End JsString.
Export JsString.

Coercion lit : string >-> jsstring.

(** ** Regular expressions: the fragment the validators use *)

Module Regex.

(** A character class: inclusive ranges of code units. *)
Definition charclass := list (N * N).

Definition in_class (cls : charclass) (c : N) : bool :=
  existsb (fun r => (fst r <=? c)%N && (c <=? snd r)%N) cls.

Definition range (lo hi : string) : N * N :=
  (hd 0%N (lit lo), hd 0%N (lit hi)).

Definition single (c : string) : N * N := range c c.

(** Patterns between [^] and [$]. *)
Inductive regex :=
| Empty                       (* matches nothing *)
| Eps                         (* matches the empty string *)
| Class (cls : charclass)     (* [...] *)
| Cat (r1 r2 : regex)         (* r1 r2 *)
| Alt (r1 r2 : regex)
| Star (r : regex).           (* r* *)

(** [r+] *)
Definition Plus (r : regex) : regex := Cat r (Star r).

Fixpoint nullable (r : regex) : bool :=
  match r with
  | Empty => false
  | Eps => true
  | Class _ => false
  | Cat r1 r2 => nullable r1 && nullable r2
  | Alt r1 r2 => nullable r1 || nullable r2
  | Star _ => true
  end.

Fixpoint deriv (c : N) (r : regex) : regex :=
  match r with
  | Empty => Empty
  | Eps => Empty
  | Class cls => if in_class cls c then Eps else Empty
  | Cat r1 r2 =>
      if nullable r1 then Alt (Cat (deriv c r1) r2) (deriv c r2)
      else Cat (deriv c r1) r2
  | Alt r1 r2 => Alt (deriv c r1) (deriv c r2)
  | Star r1 => Cat (deriv c r1) (Star r1)
  end.

(** [/^r$/.test(s)]: without the [m] flag [^] and [$] match only at the two
    ends of the input, so the test is a match of the whole string. *)
Fixpoint test (r : regex) (s : jsstring) : bool :=
  match s with
  | [] => nullable r
  | c :: s' => test (deriv c r) s'
  end.

(** The strings a pattern denotes. *)
Inductive lang : regex -> jsstring -> Prop :=
| L_Eps : lang Eps []
| L_Class cls c : in_class cls c = true -> lang (Class cls) [c]
| L_Cat r1 r2 s1 s2 : lang r1 s1 -> lang r2 s2 -> lang (Cat r1 r2) (s1 ++ s2)
| L_AltL r1 r2 s : lang r1 s -> lang (Alt r1 r2) s
| L_AltR r1 r2 s : lang r2 s -> lang (Alt r1 r2) s
| L_StarNil r : lang (Star r) []
| L_StarCons r s1 s2 :
    lang r s1 -> lang (Star r) s2 -> lang (Star r) (s1 ++ s2).

End Regex.

(** ** Numbers *)

Module Number.

(** A [number]: an IEEE 754 binary64 value. *)
Definition number := spec_float.

Definition prec : Z := 53.
Definition emax : Z := 1024.

(** The values that exist at run time: canonical mantissa, bounded exponent. *)
Definition wf (x : number) : bool := valid_binary prec emax x.

(** The number a numeric literal [m * 2^e] denotes; integer literals have
    [e = 0]. *)
Definition ofBinary (m e : Z) : number := binary_normalize prec emax m e false.
Definition ofZ (z : Z) : number := ofBinary z 0.
Definition ofNat (n : nat) : number := ofZ (Z.of_nat n).

(** [Number.isInteger(x)] *)
Definition isInteger (x : number) : bool :=
  match x with
  | S754_zero _ => true
  | S754_finite _ m e =>
      if (0 <=? e)%Z then true else (Z.pos m mod 2 ^ (- e) =? 0)%Z
  | S754_infinity _ | S754_nan => false
  end.

(** [x < y] and [x > y]; both are false when either side is NaN. *)
Definition lt (x y : number) : bool := SFltb x y.
Definition gt (x y : number) : bool := SFltb y x.

(** [x / y] *)
Definition div (x y : number) : number := SFdiv prec emax x y.

(** Truthiness of a number: [0], [-0] and [NaN] are falsy. *)
Definition truthy (x : number) : bool :=
  match x with
  | S754_zero _ | S754_nan => false
  | _ => true
  end.

(** The integer a number is, when it is one. *)
Definition toInteger (x : number) : option Z :=
  match x with
  | S754_zero _ => Some 0%Z
  | S754_finite s m e =>
      let sgn := if s then (-1)%Z else 1%Z in
      if (0 <=? e)%Z then Some (sgn * (Z.pos m * 2 ^ e))%Z
      else if (Z.pos m mod 2 ^ (- e) =? 0)%Z
           then Some (sgn * (Z.pos m / 2 ^ (- e)))%Z
           else None
  | S754_infinity _ | S754_nan => None
  end.

Definition decimal (n : Z) : jsstring :=
  lit (NilEmpty.string_of_uint (N.to_uint (Z.to_N n))).

(** [String(x)], as a template literal applies it. Integers below 2^53 in
    magnitude print as their decimal digits; the digits of every other
    finite value come from the engine's shortest round-trip printer
    [other]. *)
Definition toString (other : number -> jsstring) (x : number) : jsstring :=
  match x with
  | S754_nan => lit "NaN"
  | S754_infinity s => (if s then lit "-" else []) ++ lit "Infinity"
  | S754_zero _ => lit "0"
  | S754_finite s _ _ =>
      match toInteger x with
      | Some z =>
          if (Z.abs z <? 2 ^ 53)%Z
          then (if s then lit "-" else []) ++ decimal (Z.abs z)
          else other x
      | None => other x
      end
  end.

End Number.
Export Number.

(** ** Thrown values and results *)

(** Every value this program throws or catches is an [Error] object:
    [new Error(msg)], the rejection of a child process (with its [killed]
    and [stderr] properties), a file-system error, or the [SyntaxError] of
    [JSON.parse]. *)
Record exn := {
  name : jsstring;
  message : jsstring;
  killed : option bool;      (* "killed" in error, and its value *)
  stderr : option jsstring
}.

(** [new Error(msg)] *)
Definition newError (msg : jsstring) : exn :=
  {| name := lit "Error"; message := msg; killed := None; stderr := None |}.

(** [String(error)] *)
Definition errorToString (e : exn) : jsstring :=
  if negb (JsString.truthy (message e)) then name e
  else if negb (JsString.truthy (name e)) then message e
  else name e ++ lit ": " ++ message e.

(** [a || b] on an optional string: an absent or empty [a] gives [b]. *)
Definition orStr (a : option jsstring) (b : jsstring) : jsstring :=
  match a with
  | Some s => if JsString.truthy s then s else b
  | None => b
  end.

Inductive result (A : Type) :=
| Ok (a : A)
| Throw (e : exn).
Arguments Ok {A} a.
Arguments Throw {A} e.

Definition dq : jsstring := [34%N].        (* the double quote *)
Definition emdash : jsstring := [8212%N].  (* U+2014 *)
Definition LF : jsstring := [10%N].

(** ** src/utils/sanitize.ts *)

Module Sanitize.
Import Regex.

Definition letters_digits : charclass :=
  [range "a" "z"; range "A" "Z"; range "0" "9"].

(** [[a-zA-Z0-9._-]] *)
Definition identifierClass : charclass :=
  letters_digits ++ [single "."; single "_"; single "-"].

(** [[a-zA-Z0-9.*?\[\]_\-/{}|]] *)
Definition globClass : charclass :=
  letters_digits
  ++ [single "."; single "*"; single "?"; single "["; single "]"; single "_";
      single "-"; single "/"; single "{"; single "}"; single "|"].

Definition validateIdentifier (identifier : jsstring) : result jsstring :=
  let trimmed := trim identifier in
  if negb (JsString.truthy trimmed) then
    Throw (newError "Identifier must not be empty")
  else if (100 <? List.length trimmed)%nat then
    Throw (newError "Identifier must be 100 characters or fewer")
  else if negb (test (Plus (Class identifierClass)) trimmed) then
    Throw (newError
      (lit "Invalid identifier " ++ dq ++ trimmed ++ dq
       ++ lit ". Only letters, digits, hyphens, underscores, and periods are allowed."))
  else Ok trimmed.

Definition validateQuery (query : jsstring) : result jsstring :=
  let trimmed := trim query in
  if negb (JsString.truthy trimmed) then
    Throw (newError "Search query must not be empty")
  else if (2000 <? List.length trimmed)%nat then
    Throw (newError "Search query must be 2000 characters or fewer")
  else Ok trimmed.

Definition validateGlob (pattern : jsstring) : result jsstring :=
  let trimmed := trim pattern in
  if negb (JsString.truthy trimmed) then
    Throw (newError "Glob pattern must not be empty")
  else if (200 <? List.length trimmed)%nat then
    Throw (newError "Glob pattern must be 200 characters or fewer")
  else if negb (test (Plus (Class globClass)) trimmed) then
    Throw (newError
      (lit "Invalid glob pattern " ++ dq ++ trimmed ++ dq
       ++ lit ". Contains disallowed characters."))
  else Ok trimmed.

Definition validateDestdir (dir : jsstring) : result jsstring :=
  let trimmed := trim dir in
  if negb (JsString.truthy trimmed) then
    Throw (newError "Destination directory must not be empty")
  else if (500 <? List.length trimmed)%nat then
    Throw (newError "Destination directory path must be 500 characters or fewer")
  else Ok trimmed.

Definition validateFormat (format : jsstring) : result jsstring :=
  let trimmed := trim format in
  if negb (JsString.truthy trimmed) then
    Throw (newError "Format must not be empty")
  else if (100 <? List.length trimmed)%nat then
    Throw (newError "Format name must be 100 characters or fewer")
  else Ok trimmed.

Definition validateRows (rows : number) : result number :=
  if negb (isInteger rows) || lt rows (ofZ 1) || gt rows (ofZ 10000) then
    Throw (newError "rows must be an integer between 1 and 10000")
  else Ok rows.

Definition validatePage (page : number) : result number :=
  if negb (isInteger page) || lt page (ofZ 1) then
    Throw (newError "page must be a positive integer")
  else Ok page.

(** [/^[a-zA-Z_][a-zA-Z0-9_]*$/] *)
Definition fieldNameRegex : regex :=
  Cat (Class [range "a" "z"; range "A" "Z"; single "_"])
      (Star (Class (letters_digits ++ [single "_"]))).

Definition validateFieldName (field : jsstring) : result jsstring :=
  let trimmed := trim field in
  if negb (test fieldNameRegex trimmed) then
    Throw (newError
      (lit "Invalid field name " ++ dq ++ trimmed ++ dq
       ++ lit ". Must be alphanumeric with underscores."))
  else Ok trimmed.

End Sanitize.
Export Sanitize.

(** ** JSON values and the host *)

#[local] Unset Elimination Schemes.
Inductive json :=
| JNull
| JBool (b : bool)
| JNumber (n : number)
| JString (s : jsstring)
| JArray (items : list json)
| JObject (members : list (jsstring * json)).
#[local] Set Elimination Schemes.

(** Built-ins of the language and of Node whose algorithms are not part of
    this repository. *)
Record runtime := {
  (* JSON.parse(text); a SyntaxError is a thrown value *)
  JSON_parse : jsstring -> result json;
  (* JSON.stringify(value, null, indent) *)
  JSON_stringify : json -> nat -> jsstring;
  (* the digits of a number that is not a safe integer *)
  Number_toString_other : number -> jsstring;
  (* path.join(...segments) *)
  path_join : list jsstring -> jsstring
}.

(** The options object of one [execFile] call. *)
Record ExecOptions := {
  opt_timeout : number;
  opt_maxBuffer : option Z;
  opt_shell : bool
}.

(** [{ stdout, stderr }] of a finished child. *)
Record IaResult := { stdout : jsstring; ia_stderr : jsstring }.

(** What the program asks of its host, in the order it asks. *)
Inductive event :=
| EvExecFile (command : jsstring) (args : list jsstring) (opts : ExecOptions)
| EvExistsSync (path : jsstring)
| EvReadFileSync (path : jsstring)
| EvReaddirSync (path : jsstring)
| EvConsoleError (text : jsstring).

(** The host. Each answer may depend on everything asked before, so the same
    question can be answered differently the next time. *)
Record world := {
  IS_WINDOWS : bool;                          (* process.platform === "win32" *)
  env : jsstring -> option jsstring;          (* process.env *)
  w_execFile : list event -> jsstring -> list jsstring -> ExecOptions
               -> result IaResult;            (* promisify(execFile) *)
  w_existsSync : list event -> jsstring -> bool;
  w_readFileSync : list event -> jsstring -> result jsstring;
  w_readdirSync : list event -> jsstring -> result (list jsstring)
}.

(** ** src/utils/ia-runner.ts *)

(** [{ command, useShell }] *)
Record Resolved := { command : jsstring; useShell : bool }.

(** Module state: the cache [resolvedIa], and the host interaction so far. *)
Record state := {
  resolvedIa : option Resolved;
  trace : list event
}.

(** Computations that read and write the state and may throw. *)
Definition M (A : Type) : Type := state -> result A * state.

Definition ret {A} (a : A) : M A := fun s => (Ok a, s).

Definition throw {A} (e : exn) : M A := fun s => (Throw e, s).

Definition bind {A B} (m : M A) (k : A -> M B) : M B :=
  fun s =>
    match m s with
    | (Ok a, s') => k a s'
    | (Throw e, s') => (Throw e, s')
    end.

(** [try { m } catch (e) { h e }] *)
Definition try_catch {A} (m : M A) (h : exn -> M A) : M A :=
  fun s =>
    match m s with
    | (Ok a, s') => (Ok a, s')
    | (Throw e, s') => h e s'
    end.

Definition lift {A} (r : result A) : M A := fun s => (r, s).

Notation "x <- m ;; k" := (bind m (fun x => k))
  (at level 61, m at next level, right associativity).
Notation "m ;;; k" := (bind m (fun _ => k))
  (at level 61, right associativity).

Definition DEFAULT_TIMEOUT_MS : number := ofZ 120000.
Definition DOWNLOAD_TIMEOUT_MS : number := ofZ 600000.

Definition UNAVAILABLE_MESSAGE : jsstring :=
  lit "The Internet Archive CLI (ia) is not installed or not on PATH." ++ LF
  ++ lit "Install it with: pip install internetarchive" ++ LF
  ++ lit "Then configure with: ia configure" ++ LF
  ++ lit "Verify with: ia --version".

Section IaRunner.

Variable rt : runtime.
Variable w : world.

(** One question to the host: logged, then answered from the log so far. *)
Definition ask {A} (ev : event) (answer : list event -> result A) : M A :=
  fun s =>
    (answer (trace s),
     {| resolvedIa := resolvedIa s; trace := trace s ++ [ev] |}).

Definition execFileAsync (cmd : jsstring) (args : list jsstring)
    (opts : ExecOptions) : M IaResult :=
  ask (EvExecFile cmd args opts) (fun t => w_execFile w t cmd args opts).

Definition existsSync (path : jsstring) : M bool :=
  ask (EvExistsSync path) (fun t => Ok (w_existsSync w t path)).

Definition readFileSync (path : jsstring) : M jsstring :=
  ask (EvReadFileSync path) (fun t => w_readFileSync w t path).

Definition readdirSync (path : jsstring) : M (list jsstring) :=
  ask (EvReaddirSync path) (fun t => w_readdirSync w t path).

Definition console_error (text : jsstring) : M unit :=
  ask (EvConsoleError text) (fun _ => Ok tt).

Definition join := path_join rt.

(** [resolvedIa = r; return resolvedIa;] *)
Definition setResolved (r : Resolved) : M Resolved :=
  fun s => (Ok r, {| resolvedIa := Some r; trace := trace s |}).

(** [for (const d of names) { const candidate = mk(d);
      if (existsSync(candidate)) ... return ... }]: the first candidate that
    exists. *)
Fixpoint firstExisting (mk : jsstring -> jsstring) (names : list jsstring)
    : M (option jsstring) :=
  match names with
  | [] => ret None
  | d :: ds =>
      let candidate := mk d in
      b <- existsSync candidate ;;
      if b then ret (Some candidate) else firstExisting mk ds
  end.

(** Strategy 1: [ia.exe] answers [--version]. *)
Definition probeIaExe : M bool :=
  try_catch
    (execFileAsync "ia.exe" [lit "--version"]
       {| opt_timeout := ofZ 5000; opt_maxBuffer := None; opt_shell := false |} ;;;
     ret true)
    (fun _ => ret false).

(** Strategies 2 and 3: the pyenv version file, then every pyenv version. *)
Definition probePyenv : M (option jsstring) :=
  let pyenvRoot :=
    orStr (env w "PYENV_ROOT")
      (orStr (env w "PYENV")
         (join [orStr (env w "USERPROFILE") []; lit ".pyenv"; lit "pyenv-win"])) in
  let versionsDir := join [pyenvRoot; lit "versions"] in
  hasVersions <- existsSync versionsDir ;;
  if hasVersions then
    let versionFile := join [pyenvRoot; lit "version"] in
    hasFile <- existsSync versionFile ;;
    pinned <-
      (if hasFile then
         content <- readFileSync versionFile ;;
         let versionPrefix := firstLine (trim content) in
         try_catch
           (dirs <- readdirSync versionsDir ;;
            match find (fun d => startsWith d versionPrefix) dirs with
            | Some match_ =>
                if JsString.truthy match_ then
                  let candidate :=
                    join [versionsDir; match_; lit "Scripts"; lit "ia.exe"] in
                  found <- existsSync candidate ;;
                  ret (if found then Some candidate else None)
                else ret None
            | None => ret None
            end)
           (fun _ => ret None)
       else ret None) ;;
    match pinned with
    | Some candidate => ret (Some candidate)
    | None =>
        try_catch
          (dirs <- readdirSync versionsDir ;;
           firstExisting
             (fun dir => join [versionsDir; dir; lit "Scripts"; lit "ia.exe"])
             dirs)
          (fun _ => ret None)
    end
  else ret None.

(** Strategy 4: the conventional install directories and their
    subdirectories. *)
Fixpoint probeBases (bases : list jsstring) : M (option jsstring) :=
  match bases with
  | [] => ret None
  | base :: rest =>
      present <- existsSync base ;;
      if present then
        direct <-
          (if endsWith base "Scripts" && JsString.truthy (join [base; lit "ia.exe"])
           then
             found <- existsSync (join [base; lit "ia.exe"]) ;;
             ret (if found then Some (join [base; lit "ia.exe"]) else None)
           else ret None) ;;
        match direct with
        | Some candidate => ret (Some candidate)
        | None =>
            inSub <-
              try_catch
                (subs <- readdirSync base ;;
                 firstExisting
                   (fun sub => join [base; sub; lit "Scripts"; lit "ia.exe"])
                   subs)
                (fun _ => ret None) ;;
            match inSub with
            | Some candidate => ret (Some candidate)
            | None => probeBases rest
            end
        end
      else probeBases rest
  end.

Definition pipBases : list jsstring :=
  let userProfile := orStr (env w "USERPROFILE") [] in
  [ join [userProfile; lit "AppData"; lit "Local"; lit "Programs"; lit "Python"];
    join [userProfile; lit "AppData"; lit "Roaming"; lit "Python"];
    lit "C:\Python313\Scripts";
    lit "C:\Python312\Scripts";
    lit "C:\Python311\Scripts" ].

Definition SHELL_WARNING : jsstring :=
  lit "Warning: Could not resolve ia.exe directly. "
  ++ lit "Using shell mode " ++ emdash ++ lit " ensure inputs are validated.".

Definition direct (cmd : jsstring) : Resolved :=
  {| command := cmd; useShell := false |}.

(** The body of [resolveIaExecutable] below its first line: the fallback
    chain, each branch ending in [resolvedIa = ...; return resolvedIa]. *)
Definition resolveFresh : M Resolved :=
  if negb (IS_WINDOWS w) then setResolved (direct "ia")
  else
    onPath <- probeIaExe ;;
    if onPath then setResolved (direct "ia.exe")
    else
      viaPyenv <- probePyenv ;;
      match viaPyenv with
      | Some candidate => setResolved (direct candidate)
      | None =>
          viaPip <- probeBases pipBases ;;
          match viaPip with
          | Some candidate => setResolved (direct candidate)
          | None =>
              console_error SHELL_WARNING ;;;
              setResolved {| command := lit "ia"; useShell := true |}
          end
      end.

Definition resolveIaExecutable : M Resolved :=
  fun s =>
    match resolvedIa s with
    | Some r => (Ok r, s)              (* if (resolvedIa) return resolvedIa; *)
    | None => resolveFresh s
    end.

Definition checkIaAvailable : M jsstring :=
  try_catch
    (r <- resolveIaExecutable ;;
     out <- execFileAsync (command r) [lit "--version"]
              {| opt_timeout := ofZ 10000; opt_maxBuffer := None;
                 opt_shell := useShell r |} ;;
     ret (trim (stdout out)))
    (fun _ => throw (newError UNAVAILABLE_MESSAGE)).

Definition numberToString : number -> jsstring :=
  toString (Number_toString_other rt).

(** [error && typeof error === "object" && "killed" in error && error.killed] *)
Definition wasKilled (error : exn) : bool :=
  match killed error with
  | Some true => true
  | _ => false
  end.

Definition runIa (args : list jsstring) (timeoutMs : number) : M IaResult :=
  r <- resolveIaExecutable ;;
  try_catch
    (execFileAsync (command r) args
       {| opt_timeout := timeoutMs;
          opt_maxBuffer := Some (50 * 1024 * 1024)%Z;
          opt_shell := useShell r |})
    (fun error =>
       if wasKilled error then
         throw (newError
           (lit "ia command timed out after "
            ++ numberToString (div timeoutMs (ofZ 1000)) ++ lit " seconds. "
            ++ lit "Command: ia " ++ JsString.join " " args))
       else
         let msg :=
           orStr (stderr error)
             (orStr (Some (message error)) (errorToString error)) in
         throw (newError (lit "ia command failed: " ++ msg))).

End IaRunner.

(** ** src/tools/*.ts *)

Inductive ContentItem :=
| TextContent (text : jsstring).     (* { type: "text", text } *)

Record CallToolResult := {
  content : list ContentItem;
  isError : bool                     (* absent counts as false *)
}.

Definition success (text : jsstring) : CallToolResult :=
  {| content := [TextContent text]; isError := false |}.

Definition failure (text : jsstring) : CallToolResult :=
  {| content := [TextContent text]; isError := true |}.

Record SearchArgs := {
  query : jsstring;
  fields : option (list jsstring);
  rows : option number;
  page : option number
}.

Record MetadataArgs := { m_identifier : jsstring }.

Record ListArgs := { l_identifier : jsstring }.

Record DownloadArgs := {
  identifier : jsstring;
  glob : option jsstring;
  destdir : option jsstring;
  format : option jsstring;
  dry_run : option bool
}.

(** A present, truthy optional argument. *)
Definition given {A} (truthy : A -> bool) (a : option A) : option A :=
  match a with
  | Some v => if truthy v then Some v else None
  | None => None
  end.

(** [for (const field of fields) iaArgs.push("--field", validateFieldName(field))] *)
Fixpoint pushFields (iaArgs : list jsstring) (fields : list jsstring)
    : result (list jsstring) :=
  match fields with
  | [] => Ok iaArgs
  | field :: rest =>
      match validateFieldName field with
      | Ok validated => pushFields (iaArgs ++ [lit "--field"; validated]) rest
      | Throw e => Throw e
      end
  end.

(** What [handleSearch] validates and builds before it runs the CLI. *)
Record SearchPlan := {
  sp_args : list jsstring;
  sp_page : number;
  sp_rows : number
}.

(** [stdout.trim().split("\n").filter(Boolean)] *)
Definition outputLines (stdout : jsstring) : list jsstring :=
  filter JsString.truthy (split 10%N (trim stdout)).

(** [[stdout, stderr].filter(Boolean).join("\n").trim()] *)
Definition downloadOutput (out : IaResult) : jsstring :=
  trim (JsString.join LF (filter JsString.truthy [stdout out; ia_stderr out])).

Section Tools.

Variable rt : runtime.
Variable w : world.

(** The availability precheck every handler starts with: [None] when the
    CLI answered, the error result otherwise. *)
Definition precheck : M (option CallToolResult) :=
  try_catch
    (checkIaAvailable rt w ;;; ret None)
    (fun e => ret (Some (failure (message e)))).

(** [try { body } catch (error) { ... `${label}: ${msg}` ... }], after the
    precheck. Every caught value is an [Error], so [msg] is its message. *)
Definition handler (label : jsstring) (body : M CallToolResult)
    : M CallToolResult :=
  unavailable <- precheck ;;
  match unavailable with
  | Some res => ret res
  | None =>
      try_catch body
        (fun error => ret (failure (label ++ lit ": " ++ message error)))
  end.

Definition searchPlan (args : SearchArgs) : result SearchPlan :=
  match validateQuery (query args) with
  | Throw e => Throw e
  | Ok query =>
      match (match given Number.truthy (rows args) with
             | Some r => validateRows r
             | None => Ok (ofZ 50)
             end) with
      | Throw e => Throw e
      | Ok rows =>
          match (match given Number.truthy (page args) with
                 | Some p => validatePage p
                 | None => Ok (ofZ 1)
                 end) with
          | Throw e => Throw e
          | Ok page =>
              let iaArgs :=
                [ lit "search"; query; lit "--parameters";
                  lit "page=" ++ numberToString rt page
                  ++ lit "&rows=" ++ numberToString rt rows ] in
              match
                (match fields args with
                 | Some ((_ :: _) as fs) => pushFields iaArgs fs
                 | _ => Ok iaArgs
                 end)
              with
              | Throw e => Throw e
              | Ok iaArgs =>
                  Ok {| sp_args := iaArgs; sp_page := page; sp_rows := rows |}
              end
          end
      end
  end.

(** [for (const line of lines) { try { results.push(JSON.parse(line)) }
      catch {} }] *)
Fixpoint parseLines (results : list json) (lines : list jsstring) : list json :=
  match lines with
  | [] => results
  | line :: rest =>
      match JSON_parse rt line with
      | Ok v => parseLines (results ++ [v]) rest
      | Throw _ => parseLines results rest
      end
  end.

Definition searchOutput (plan : SearchPlan) (results : list json) : json :=
  JObject
    [ (lit "total_results", JNumber (ofNat (List.length results)));
      (lit "page", JNumber (sp_page plan));
      (lit "rows", JNumber (sp_rows plan));
      (lit "results", JArray results) ].

(** The second [try] block of [handleSearch]. *)
Definition searchBody (args : SearchArgs) : M CallToolResult :=
  plan <- lift (searchPlan args) ;;
  out <- runIa rt w (sp_args plan) DEFAULT_TIMEOUT_MS ;;
  let results := parseLines [] (outputLines (stdout out)) in
  ret (success (JSON_stringify rt (searchOutput plan results) 2)).

Definition handleSearch (args : SearchArgs) : M CallToolResult :=
  handler "Search failed" (searchBody args).

Definition metadataBody (args : MetadataArgs) : M CallToolResult :=
  identifier <- lift (validateIdentifier (m_identifier args)) ;;
  out <- runIa rt w [lit "metadata"; identifier] DEFAULT_TIMEOUT_MS ;;
  let trimmed := trim (stdout out) in
  if negb (JsString.truthy trimmed) then
    ret (failure (lit "No metadata found for " ++ dq ++ identifier ++ dq
                  ++ lit ". The item may not exist."))
  else
    parsed <- lift (JSON_parse rt trimmed) ;;
    ret (success (JSON_stringify rt parsed 2)).

Definition handleMetadata (args : MetadataArgs) : M CallToolResult :=
  handler "Metadata retrieval failed" (metadataBody args).

Definition listBody (args : ListArgs) : M CallToolResult :=
  identifier <- lift (validateIdentifier (l_identifier args)) ;;
  out <- runIa rt w [lit "list"; identifier; lit "--all"; lit "--verbose"]
           DEFAULT_TIMEOUT_MS ;;
  let trimmed := trim (stdout out) in
  if negb (JsString.truthy trimmed) then
    ret (failure (lit "No files found for " ++ dq ++ identifier ++ dq
                  ++ lit ". The item may not exist."))
  else
    ret (success (lit "Files in " ++ dq ++ identifier ++ dq ++ lit ":"
                  ++ LF ++ LF ++ trimmed)).

Definition handleList (args : ListArgs) : M CallToolResult :=
  handler "List failed" (listBody args).

(** An optional flag of [ia download]: pushed, with its validated value,
    only when the argument is present and truthy. *)
Definition pushOption (iaArgs : list jsstring) (flag : jsstring)
    (validate : jsstring -> result jsstring) (value : option jsstring)
    : result (list jsstring) :=
  match given JsString.truthy value with
  | Some v =>
      match validate v with
      | Ok validated => Ok (iaArgs ++ [flag; validated])
      | Throw e => Throw e
      end
  | None => Ok iaArgs
  end.

Definition isDryRun (args : DownloadArgs) : bool :=
  match dry_run args with
  | Some true => true
  | _ => false
  end.

(** The validated identifier and the argument vector of [handleDownload]. *)
Definition downloadPlan (args : DownloadArgs)
    : result (jsstring * list jsstring) :=
  match validateIdentifier (identifier args) with
  | Throw e => Throw e
  | Ok identifier =>
      match pushOption [lit "download"; identifier] "--glob" validateGlob
              (glob args) with
      | Throw e => Throw e
      | Ok a1 =>
          match pushOption a1 "--destdir" validateDestdir (destdir args) with
          | Throw e => Throw e
          | Ok a2 =>
              match pushOption a2 "--format" validateFormat (format args) with
              | Throw e => Throw e
              | Ok a3 =>
                  Ok (identifier,
                      if isDryRun args then a3 ++ [lit "--dry-run"] else a3)
              end
          end
      end
  end.

Definition NO_OUTPUT_NOTE : jsstring :=
  lit " (no output " ++ emdash ++ lit " files may already exist).".

Definition downloadBody (args : DownloadArgs) : M CallToolResult :=
  plan <- lift (downloadPlan args) ;;
  let identifier := fst plan in
  out <- runIa rt w (snd plan) DOWNLOAD_TIMEOUT_MS ;;
  let output := downloadOutput out in
  if negb (JsString.truthy output) then
    ret (success (lit "Download completed for " ++ dq ++ identifier ++ dq
                  ++ NO_OUTPUT_NOTE))
  else
    ret (success
           (if isDryRun args
            then lit "Dry run for " ++ dq ++ identifier ++ dq ++ lit ":"
                 ++ LF ++ output
            else lit "Download completed for " ++ dq ++ identifier ++ dq
                 ++ lit ":" ++ LF ++ output)).

Definition handleDownload (args : DownloadArgs) : M CallToolResult :=
  handler "Download failed" (downloadBody args).

(** A call of one of the four tools, with its arguments; the request
    handler of the server dispatches on the tool's name. *)
Inductive request :=
| ia_search (args : SearchArgs)
| ia_metadata (args : MetadataArgs)
| ia_download (args : DownloadArgs)
| ia_list (args : ListArgs).

Definition callTool (req : request) : M CallToolResult :=
  match req with
  | ia_search args => handleSearch args
  | ia_metadata args => handleMetadata args
  | ia_download args => handleDownload args
  | ia_list args => handleList args
  end.

(** The [try] block that follows the precheck, by tool. *)
Definition toolBody (req : request) : M CallToolResult :=
  match req with
  | ia_search args => searchBody args
  | ia_metadata args => metadataBody args
  | ia_download args => downloadBody args
  | ia_list args => listBody args
  end.

End Tools.

(** ** What the invoker passes and reports *)

(** The options [runIa] passes to [execFile]. *)
Definition runOptions (r : Resolved) (timeoutMs : number) : ExecOptions :=
  {| opt_timeout := timeoutMs;
     opt_maxBuffer := Some (50 * 1024 * 1024)%Z;
     opt_shell := useShell r |}.

(** The message of the Timeout error. *)
Definition timeoutMessage (rt : runtime) (args : list jsstring)
    (timeoutMs : number) : jsstring :=
  lit "ia command timed out after "
  ++ numberToString rt (div timeoutMs (ofZ 1000)) ++ lit " seconds. "
  ++ lit "Command: ia " ++ JsString.join " " args.

(** The outcome of [runIa] once the executable is resolved: one child
    process, and its rejection turned into a Timeout or an Execution
    error. *)
Definition runOutcome (rt : runtime) (args : list jsstring)
    (timeoutMs : number) (answer : result IaResult) : result IaResult :=
  match answer with
  | Ok out => Ok out
  | Throw error =>
      if wasKilled error then
        Throw (newError (timeoutMessage rt args timeoutMs))
      else
        Throw (newError
          (lit "ia command failed: "
           ++ orStr (stderr error)
                (orStr (Some (message error)) (errorToString error))))
  end.

(** ** Invariants of computations *)

(** A computation that leaves a resolved executable in the cache alone. *)
Definition keeps {A} (m : M A) : Prop :=
  forall s r, resolvedIa s = Some r -> resolvedIa (snd (m s)) = Some r.

(** A computation whose every normal outcome is the pair it stored. *)
Definition stores (m : M Resolved) : Prop :=
  forall s r s1, m s = (Ok r, s1) -> resolvedIa s1 = Some r.

(** ** The vocabulary of the specification *)

(** "ASCII letters, digits, [.], [_], [-]" *)
Definition isIdentifierChar (c : N) : Prop :=
  (97 <= c <= 122 \/ 65 <= c <= 90 \/ 48 <= c <= 57
   \/ c = 46 \/ c = 95 \/ c = 45)%N.

(** The integers a row count may be, and what the code does with each:
    the literal [n] is a positive normal double with [n * 2^-e] as its
    mantissa, and [validateRows] returns it. *)
Definition rowsCheck (n : Z) : bool :=
  match ofZ n with
  | S754_finite false m e =>
      (-52 <=? e)%Z && (e <=? -39)%Z && (Z.pos m =? n * 2 ^ (- e))%Z
      && (2 ^ 52 <=? Z.pos m)%Z && (Z.pos m <? 2 ^ 53)%Z
      && match validateRows (ofZ n) with
         | Ok (S754_finite false m' e') => (m' =? m)%positive && (e' =? e)%Z
         | _ => false
         end
  | _ => false
  end.

Definition rowCounts : list Z := map Z.of_nat (seq 1 (Z.to_nat 10000)).

(** [3.5] *)
Definition three_and_a_half : number := ofBinary 7 (-1).

(** "parses each line, skipping every line that fails to parse": the
    records of a list of lines, in line order. *)
Inductive ParsedInOrder (parse : jsstring -> result json)
    : list jsstring -> list json -> Prop :=
| PIO_nil : ParsedInOrder parse [] []
| PIO_skip line e lines recs :
    parse line = Throw e -> ParsedInOrder parse lines recs ->
    ParsedInOrder parse (line :: lines) recs
| PIO_keep line v lines recs :
    parse line = Ok v -> ParsedInOrder parse lines recs ->
    ParsedInOrder parse (line :: lines) (v :: recs).

Definition parses (parse : jsstring -> result json) (line : jsstring) : bool :=
  match parse line with Ok _ => true | Throw _ => false end.

(** The four operations and their names. *)
Inductive operation := OpSearch | OpMetadata | OpList | OpDownload.

Definition operationName (op : operation) : jsstring :=
  match op with
  | OpSearch => lit "search"
  | OpMetadata => lit "metadata"
  | OpList => lit "list"
  | OpDownload => lit "download"
  end.

(** How each handler labels a failure of its [try] block. *)
Definition failureLabel (op : operation) : jsstring :=
  match op with
  | OpSearch => lit "Search failed"
  | OpMetadata => lit "Metadata retrieval failed"
  | OpList => lit "List failed"
  | OpDownload => lit "Download failed"
  end.

Definition operationOf (req : request) : operation :=
  match req with
  | ia_search _ => OpSearch
  | ia_metadata _ => OpMetadata
  | ia_download _ => OpDownload
  | ia_list _ => OpList
  end.

(** The error a request's validation throws, when it throws. *)
Definition validationError (rt : runtime) (req : request) : option exn :=
  match req with
  | ia_search args =>
      match searchPlan rt args with Throw e => Some e | Ok _ => None end
  | ia_metadata args =>
      match validateIdentifier (m_identifier args) with
      | Throw e => Some e
      | Ok _ => None
      end
  | ia_download args =>
      match downloadPlan args with Throw e => Some e | Ok _ => None end
  | ia_list args =>
      match validateIdentifier (l_identifier args) with
      | Throw e => Some e
      | Ok _ => None
      end
  end.

(** The two errors of the Process Invoker. *)
Inductive invokerError (rt : runtime) : exn -> Prop :=
| Timeout args timeoutMs :
    invokerError rt (newError (timeoutMessage rt args timeoutMs))
| ExecutionError cause :
    invokerError rt (newError (lit "ia command failed: " ++ cause)).

(** The not-found results of metadata and list. *)
Definition notFound (req : request) (res : CallToolResult) : Prop :=
  exists identifier,
    match req with
    | ia_metadata _ =>
        res = failure (lit "No metadata found for " ++ dq ++ identifier ++ dq
                       ++ lit ". The item may not exist.")
    | ia_list _ =>
        res = failure (lit "No files found for " ++ dq ++ identifier ++ dq
                       ++ lit ". The item may not exist.")
    | _ => False
    end.

(** The text names the operation, in whatever capitals. *)
Definition mentionsOperation (op : operation) (text : jsstring) : bool :=
  includes (asciiLower text) (operationName op).

(** The text of a result. *)
Definition resultText (r : CallToolResult) : jsstring :=
  match content r with
  | TextContent text :: _ => text
  | [] => []
  end.

(** The same runtime with another [JSON.parse]. *)
Definition withParser (rt : runtime) (parse : jsstring -> result json)
    : runtime :=
  {| JSON_parse := parse;
     JSON_stringify := JSON_stringify rt;
     Number_toString_other := Number_toString_other rt;
     path_join := path_join rt |}.

(** One use of the module by a caller, on whatever host and with whatever
    outcome: the state it leaves. *)
Inductive invocation (rt : runtime) : state -> state -> Prop :=
| inv_resolve w s :
    invocation rt s (snd (resolveIaExecutable rt w s))
| inv_check w s :
    invocation rt s (snd (checkIaAvailable rt w s))
| inv_run w args timeoutMs s :
    invocation rt s (snd (runIa rt w args timeoutMs s))
| inv_search w args s :
    invocation rt s (snd (handleSearch rt w args s))
| inv_metadata w args s :
    invocation rt s (snd (handleMetadata rt w args s))
| inv_list w args s :
    invocation rt s (snd (handleList rt w args s))
| inv_download w args s :
    invocation rt s (snd (handleDownload rt w args s)).

(** Any number of invocations, one after the other. *)
Inductive later (rt : runtime) : state -> state -> Prop :=
| later_now s : later rt s s
| later_then s1 s2 s3 :
    later rt s1 s2 -> invocation rt s2 s3 -> later rt s1 s3.

(** ** Hosts to run the examples on *)

Definition syntaxError (msg : jsstring) : exn :=
  {| name := lit "SyntaxError"; message := msg; killed := None; stderr := None |}.

(** A small printer of JSON values, without indentation or escapes. *)
Fixpoint printJson (v : json) : jsstring :=
  match v with
  | JNull => lit "null"
  | JBool b => if b then lit "true" else lit "false"
  | JNumber n => toString (fun _ => lit "?") n
  | JString s => dq ++ s ++ dq
  | JArray items => lit "[" ++ JsString.join "," (map printJson items) ++ lit "]"
  | JObject members =>
      lit "{"
      ++ JsString.join ","
           (map (fun kv : jsstring * json =>
                   let (k, x) := kv in dq ++ k ++ dq ++ lit ":" ++ printJson x)
              members)
      ++ lit "}"
  end.

(** A runtime for the examples: a document is a text between braces (kept
    as a string), paths are joined with a backslash. *)
Definition sampleRuntime : runtime :=
  {| JSON_parse := fun text =>
       if startsWith text "{" && endsWith text "}" then Ok (JString text)
       else Throw (syntaxError "Unexpected token");
     JSON_stringify := fun v _ => printJson v;
     Number_toString_other := fun _ => lit "?";
     path_join := JsString.join "\" |}.

Definition isVersionProbe (args : list jsstring) : bool :=
  match args with
  | [a] => startsWith a "--version" && startsWith "--version" a
  | _ => false
  end.

Definition fsError (msg : jsstring) : exn := newError msg.

(** A POSIX host whose [ia] answers the version probe and answers every
    other command with [main]. *)
Definition posixWorld (main : result IaResult) : world :=
  {| IS_WINDOWS := false;
     env := fun _ => None;
     w_execFile := fun _ _ args _ =>
       if isVersionProbe args
       then Ok {| stdout := lit "1.6.0" ++ LF; ia_stderr := [] |}
       else main;
     w_existsSync := fun _ _ => false;
     w_readFileSync := fun _ _ => Throw (fsError "ENOENT");
     w_readdirSync := fun _ _ => Throw (fsError "ENOENT") |}.

(** A host without the CLI: every spawn fails. *)
Definition noCliWorld : world :=
  {| IS_WINDOWS := false;
     env := fun _ => None;
     w_execFile := fun _ _ _ _ => Throw (newError "spawn ia ENOENT");
     w_existsSync := fun _ _ => false;
     w_readFileSync := fun _ _ => Throw (fsError "ENOENT");
     w_readdirSync := fun _ _ => Throw (fsError "ENOENT") |}.

Definition sameString (a b : jsstring) : bool :=
  startsWith a b && startsWith b a.

(** A Windows host with pyenv: [ia.exe] is not on PATH, the version file
    pins 3.13 and the installed versions are 3.12.1 and 3.13.7, the second
    of which has [Scripts\ia.exe]. *)
Definition pyenvWorld : world :=
  {| IS_WINDOWS := true;
     env := fun v =>
       if sameString v "USERPROFILE" then Some (lit "C:\Users\me") else None;
     w_execFile := fun _ cmd args _ =>
       if sameString cmd "ia.exe" then Throw (newError "spawn ia.exe ENOENT")
       else Ok {| stdout := lit "1.6.0" ++ LF; ia_stderr := [] |};
     w_existsSync := fun _ path =>
       sameString path "C:\Users\me\.pyenv\pyenv-win\versions"
       || sameString path "C:\Users\me\.pyenv\pyenv-win\version"
       || sameString path "C:\Users\me\.pyenv\pyenv-win\versions\3.13.7\Scripts\ia.exe";
     w_readFileSync := fun _ _ => Ok (lit "3.13" ++ LF);
     w_readdirSync := fun _ _ => Ok [lit "3.12.1"; lit "3.13.7"] |}.

(** The rejection of a child that was killed at its timeout. *)
Definition killedError : exn :=
  {| name := lit "Error"; message := lit "Command failed: ia";
     killed := Some true; stderr := Some [] |}.

(** A fresh process: nothing resolved, nothing asked. *)
Definition initial : state := {| resolvedIa := None; trace := [] |}.

(** ** The earlier versions of the invoker *)

(** The first version: [ia] is run by name, without a shell, on every
    platform. *)
Module PlainRunner.
Section PlainRunner.

Variable rt : runtime.
Variable w : world.

Definition checkIaAvailable : M jsstring :=
  try_catch
    (out <- execFileAsync w "ia" [lit "--version"]
              {| opt_timeout := ofZ 10000; opt_maxBuffer := None;
                 opt_shell := false |} ;;
     ret (trim (stdout out)))
    (fun _ => throw (newError UNAVAILABLE_MESSAGE)).

Definition runIa (args : list jsstring) (timeoutMs : number) : M IaResult :=
  try_catch
    (execFileAsync w "ia" args
       {| opt_timeout := timeoutMs;
          opt_maxBuffer := Some (50 * 1024 * 1024)%Z;
          opt_shell := false |})
    (fun error =>
       if wasKilled error then
         throw (newError
           (lit "ia command timed out after "
            ++ numberToString rt (div timeoutMs (ofZ 1000)) ++ lit " seconds. "
            ++ lit "Command: ia " ++ JsString.join " " args))
       else
         let msg :=
           orStr (stderr error)
             (orStr (Some (message error)) (errorToString error)) in
         throw (newError (lit "ia command failed: " ++ msg))).

End PlainRunner.
End PlainRunner.

(** The second version: on Windows [ia] is run through the shell, with the
    arguments that hold a [cmd.exe] special character put in double
    quotes. *)
Module ShellRunner.

(** [[&|<>^%]] *)
Definition cmdSpecial : Regex.charclass :=
  [Regex.single "&"; Regex.single "|"; Regex.single "<"; Regex.single ">";
   Regex.single "^"; Regex.single "%"].

(** [/[&|<>^%]/.test(arg)]: the pattern has no anchor, so it asks for one
    such character anywhere. *)
Definition hasCmdSpecial (arg : jsstring) : bool :=
  existsb (Regex.in_class cmdSpecial) arg.

(** [arg.replace] of every double quote by two of them. *)
Definition doubleQuotes (arg : jsstring) : jsstring :=
  flat_map (fun c => if (c =? 34)%N then [34%N; 34%N] else [c]) arg.

Section ShellRunner.

Variable rt : runtime.
Variable w : world.

Definition escapeCmdArg (arg : jsstring) : jsstring :=
  if negb (IS_WINDOWS w) then arg
  else dq ++ doubleQuotes arg ++ dq.

Definition prepareArgs (args : list jsstring) : list jsstring :=
  if negb (IS_WINDOWS w) then args
  else map (fun arg => if hasCmdSpecial arg then escapeCmdArg arg else arg) args.

(** [SHELL_OPTION]: [{ shell: true }] on Windows, [{}] elsewhere. *)
Definition SHELL_OPTION : bool := IS_WINDOWS w.

Definition checkIaAvailable : M jsstring :=
  try_catch
    (out <- execFileAsync w "ia" [lit "--version"]
              {| opt_timeout := ofZ 10000; opt_maxBuffer := None;
                 opt_shell := SHELL_OPTION |} ;;
     ret (trim (stdout out)))
    (fun _ => throw (newError UNAVAILABLE_MESSAGE)).

Definition runIa (args : list jsstring) (timeoutMs : number) : M IaResult :=
  let safeArgs := prepareArgs args in
  try_catch
    (execFileAsync w "ia" safeArgs
       {| opt_timeout := timeoutMs;
          opt_maxBuffer := Some (50 * 1024 * 1024)%Z;
          opt_shell := SHELL_OPTION |})
    (fun error =>
       if wasKilled error then
         throw (newError
           (lit "ia command timed out after "
            ++ numberToString rt (div timeoutMs (ofZ 1000)) ++ lit " seconds. "
            ++ lit "Command: ia " ++ JsString.join " " args))
       else
         let msg :=
           orStr (stderr error)
             (orStr (Some (message error)) (errorToString error)) in
         throw (newError (lit "ia command failed: " ++ msg))).

End ShellRunner.
End ShellRunner.

(** ** More of the vocabulary *)

(** "letters, digits, [.], [*], [?], [[], []], [_], [-], [/], [{], [}], [|]" *)
Definition isGlobChar (c : N) : Prop :=
  (97 <= c <= 122 \/ 65 <= c <= 90 \/ 48 <= c <= 57
   \/ c = 46 \/ c = 42 \/ c = 63 \/ c = 91 \/ c = 93 \/ c = 95 \/ c = 45
   \/ c = 47 \/ c = 123 \/ c = 125 \/ c = 124)%N.

(** "letter or [_]" and "letters, digits, [_]" *)
Definition isFieldStart (c : N) : Prop :=
  (97 <= c <= 122 \/ 65 <= c <= 90 \/ c = 95)%N.

Definition isFieldChar (c : N) : Prop :=
  (97 <= c <= 122 \/ 65 <= c <= 90 \/ 48 <= c <= 57 \/ c = 95)%N.

(** The special characters of [cmd.exe]: [&], [|], [<], [>], [^], [%]. *)
Definition isCmdSpecial (c : N) : Prop :=
  (c = 38 \/ c = 124 \/ c = 60 \/ c = 62 \/ c = 94 \/ c = 37)%N.

(** The argument vector and the timeout a request runs the CLI with, once
    its arguments are validated. *)
Definition toolCommand (rt : runtime) (req : request)
    : result (list jsstring * number) :=
  match req with
  | ia_search args =>
      match searchPlan rt args with
      | Ok plan => Ok (sp_args plan, DEFAULT_TIMEOUT_MS)
      | Throw e => Throw e
      end
  | ia_metadata args =>
      match validateIdentifier (m_identifier args) with
      | Ok identifier => Ok ([lit "metadata"; identifier], DEFAULT_TIMEOUT_MS)
      | Throw e => Throw e
      end
  | ia_download args =>
      match downloadPlan args with
      | Ok plan => Ok (snd plan, DOWNLOAD_TIMEOUT_MS)
      | Throw e => Throw e
      end
  | ia_list args =>
      match validateIdentifier (l_identifier args) with
      | Ok identifier =>
          Ok ([lit "list"; identifier; lit "--all"; lit "--verbose"],
              DEFAULT_TIMEOUT_MS)
      | Throw e => Throw e
      end
  end.

(** The options of the version probe of [checkIaAvailable]. *)
Definition probeOptions (r : Resolved) : ExecOptions :=
  {| opt_timeout := ofZ 10000; opt_maxBuffer := None;
     opt_shell := useShell r |}.

(** The [--field] flags of a search, one pair per field. *)
Definition fieldFlags (fields : list jsstring) : list jsstring :=
  flat_map (fun f => [lit "--field"; trim f]) fields.

(** The fields of a search, none when the argument is absent. *)
Definition fieldsOf (args : SearchArgs) : list jsstring :=
  match fields args with
  | Some fs => fs
  | None => []
  end.

(** What an optional argument of a download adds to the argument vector:
    its flag and its trimmed value when it is given and truthy, nothing
    otherwise. *)
Definition optionFlags (flag : jsstring) (value : option jsstring)
    : list jsstring :=
  match given JsString.truthy value with
  | Some v => [flag; trim v]
  | None => []
  end.

(** A string a length-only validator accepts: trimmed, not empty, and of at
    most [limit] code units. *)
Definition withinLimit (limit : nat) (x v : jsstring) : Prop :=
  v = trim x /\ v <> [] /\ (List.length v <= limit)%nat.

(** The cause an Execution error reports: the error output of the child
    when there is some, else the message of the rejection, else its name. *)
Definition failureCause (error : exn) : jsstring :=
  match stderr error with
  | Some (c :: t) => c :: t
  | _ =>
      match message error with
      | c :: t => c :: t
      | [] => name error
      end
  end.

(** ** Outcomes of the resolver *)

(** The last thing asked of the host was whether [path] exists, and the
    answer was yes. *)
Definition confirmed (w : world) (path : jsstring) (s : state) : Prop :=
  exists t, trace s = t ++ [EvExistsSync path] /\ w_existsSync w t path = true.

(** A probe that found a path has just seen it exist. *)
Definition found (w : world) (o : option jsstring) (s : state) : Prop :=
  forall path, o = Some path -> confirmed w path s.

(** Every normal outcome of a computation satisfies [Q]. *)
Definition post {A} (m : M A) (Q : A -> state -> Prop) : Prop :=
  forall s a s1, m s = (Ok a, s1) -> Q a s1.

(** A computation that does not write the cache. *)
Definition frames {A} (m : M A) : Prop :=
  forall s, resolvedIa (snd (m s)) = resolvedIa s.

(** The last thing asked of the host was to read a file, and that threw
    [e]. *)
Definition readFailure (w : world) (e : exn) (s : state) : Prop :=
  exists t path,
    trace s = t ++ [EvReadFileSync path] /\ w_readFileSync w t path = Throw e.

(** A computation that throws only what a failed [readFileSync] threw, at
    once and without having written the cache. *)
Definition throwsOnRead {A} (w : world) (m : M A) : Prop :=
  forall s e s1,
    m s = (Throw e, s1) -> readFailure w e s1 /\ resolvedIa s1 = resolvedIa s.

(** A Windows host with pyenv whose version file cannot be read. *)
Definition unreadableWorld : world :=
  {| IS_WINDOWS := true;
     env := fun _ => None;
     w_execFile := fun _ _ _ _ => Throw (newError "spawn ia.exe ENOENT");
     w_existsSync := fun _ _ => true;
     w_readFileSync := fun _ _ => Throw (newError "EACCES: permission denied");
     w_readdirSync := fun _ _ => Ok [] |}.

(* ================================================================== *)
(** * Part II: properties                                              *)
(* ================================================================== *)

Ltac inv H := inversion H; subst; clear H.

(** ** Strings *)

Lemma truthy_nonempty (s : jsstring) : JsString.truthy s = true <-> s <> [].
Proof.
  destruct s; simpl; split; intro H; congruence.
Qed.

Lemma startsWith_app (p rest : jsstring) : startsWith (p ++ rest) p = true.
Proof.
  induction p as [|a p IH]; simpl.
  - destruct rest; reflexivity.
  - now rewrite N.eqb_refl.
Qed.

Lemma includes_app (pre sub post : jsstring) :
  includes (pre ++ sub ++ post) sub = true.
Proof.
  induction pre as [|a pre IH]; simpl.
  - pose proof (startsWith_app sub post) as H.
    destruct (sub ++ post); cbn [includes]; now rewrite H.
  - rewrite IH. apply orb_true_r.
Qed.

Lemma includes_suffix (pre sub : jsstring) : includes (pre ++ sub) sub = true.
Proof.
  rewrite <- (app_nil_r sub) at 1. apply includes_app.
Qed.

Lemma join_cons (sep p : jsstring) (ps : list jsstring) :
  exists rest, JsString.join sep (p :: ps) = p ++ rest.
Proof.
  destruct ps as [|q ps]; simpl.
  - exists []. now rewrite app_nil_r.
  - eexists. reflexivity.
Qed.

(** ** Regular expressions: [test] decides membership *)

Import Regex.

Lemma nullable_lang (r : regex) : nullable r = true <-> lang r [].
Proof.
  induction r; simpl; split; intro H;
    try discriminate; try (now constructor); try (now inversion H).
  - apply andb_prop in H as [H1 H2].
    change (@nil N) with (@nil N ++ []). constructor; tauto.
  - inversion H; subst.
    match goal with E : _ ++ _ = [] |- _ => apply app_eq_nil in E as [-> ->] end.
    apply andb_true_intro; tauto.
  - apply orb_prop in H as [H|H]; [apply L_AltL|apply L_AltR]; tauto.
  - apply orb_true_intro. inversion H; subst; tauto.
Qed.

Lemma lang_deriv (c : N) (r : regex) (s : jsstring) :
  lang (deriv c r) s -> lang r (c :: s).
Proof.
  revert s. induction r; simpl; intros s H; try (now inversion H).
  - destruct (in_class cls c) eqn:E; inv H. now constructor.
  - destruct (nullable r1) eqn:E.
    + inv H.
      * match goal with L : lang (Cat _ _) _ |- _ => inv L end.
        rewrite app_comm_cons. constructor; auto.
      * change (c :: s) with ([] ++ c :: s).
        constructor; [now apply nullable_lang | auto].
    + inv H. rewrite app_comm_cons. constructor; auto.
  - inv H; [apply L_AltL | apply L_AltR]; auto.
  - inv H. rewrite app_comm_cons. constructor; auto.
Qed.

Lemma deriv_lang (c : N) (r : regex) (s0 : jsstring) :
  lang r s0 -> forall s, s0 = c :: s -> lang (deriv c r) s.
Proof.
  induction 1 as [|cls c' Hc|r1 r2 s1 s2 H1 IH1 H2 IH2|r1 r2 s0 H IH
                 |r1 r2 s0 H IH| |r1 s1 s2 H1 IH1 H2 IH2];
    intros s E; simpl; try discriminate.
  - injection E as -> <-. rewrite Hc. constructor.
  - destruct s1 as [|a s1]; simpl in E.
    + subst s2. apply nullable_lang in H1. rewrite H1.
      apply L_AltR. now apply IH2.
    + injection E as -> <-.
      assert (L : lang (Cat (deriv c r1) r2) (s1 ++ s2))
        by (constructor; auto).
      destruct (nullable r1); [now apply L_AltL | exact L].
  - apply L_AltL. auto.
  - apply L_AltR. auto.
  - destruct s1 as [|a s1]; simpl in E.
    + now apply IH2.
    + injection E as -> <-. constructor; auto.
Qed.

Lemma test_lang (r : regex) (s : jsstring) : test r s = true <-> lang r s.
Proof.
  revert r. induction s as [|c s IH]; intro r; simpl.
  - apply nullable_lang.
  - rewrite IH. split; [apply lang_deriv | intro H; now apply (deriv_lang c r (c :: s) H)].
Qed.

Lemma lang_star_class (cls : charclass) (s : jsstring) :
  lang (Star (Class cls)) s <-> forallb (in_class cls) s = true.
Proof.
  split.
  - intro H. remember (Star (Class cls)) as r eqn:Er.
    induction H as [| | | | | |r1 s1 s2 H1 _ H2 IH2]; try discriminate.
    + reflexivity.
    + injection Er as ->. inv H1. simpl.
      match goal with Hc : in_class _ _ = true |- _ => rewrite Hc end.
      now apply IH2.
  - induction s as [|c s IH]; simpl; intro H.
    + constructor.
    + apply andb_prop in H as [Hc Hs].
      change (c :: s) with ([c] ++ s). constructor; [now constructor | auto].
Qed.

(** [/^[cls]+$/.test(s)]: [s] is not empty and all of it is in the class. *)
Lemma test_plus_class (cls : charclass) (s : jsstring) :
  test (Plus (Class cls)) s = JsString.truthy s && forallb (in_class cls) s.
Proof.
  apply eq_true_iff_eq. rewrite test_lang, andb_true_iff, <- lang_star_class.
  unfold Plus. split.
  - intro H. inv H.
    match goal with L : lang (Class _) _ |- _ => inv L end.
    simpl. split; [reflexivity|].
    match goal with |- lang _ (?c :: ?s2) => change (c :: s2) with ([c] ++ s2) end.
    constructor; [now constructor | auto].
  - intros [Hne H]. destruct s as [|c s]; [discriminate|].
    apply lang_star_class in H. simpl in H. apply andb_prop in H as [Hc Hs].
    change (c :: s) with ([c] ++ s).
    constructor; [now constructor | now apply lang_star_class].
Qed.

(** ** Input Validator *)

Lemma identifierClass_spec (c : N) :
  in_class identifierClass c = true <-> isIdentifierChar c.
Proof.
  unfold isIdentifierChar. cbn.
  rewrite !orb_true_iff, !andb_true_iff, !N.leb_le. lia.
Qed.

Lemma identifierClass_all (s : jsstring) :
  forallb (in_class identifierClass) s = true <-> Forall isIdentifierChar s.
Proof.
  rewrite forallb_forall, Forall_forall.
  split; intros H c Hc; apply identifierClass_spec; auto.
Qed.

(** When, and with what, identifier validation succeeds. *)
Lemma validateIdentifier_Ok_iff (identifier v : jsstring) :
  validateIdentifier identifier = Ok v <->
  v = trim identifier /\ v <> [] /\ (List.length v <= 100)%nat
  /\ Forall isIdentifierChar v.
Proof.
  unfold validateIdentifier. rewrite test_plus_class.
  destruct (JsString.truthy (trim identifier)) eqn:Ht; simpl.
  - apply truthy_nonempty in Ht.
    destruct (Nat.ltb_spec 100 (List.length (trim identifier))) as [Hl|Hl].
    + split; [discriminate | intros (-> & _ & Hlen & _); lia].
    + destruct (forallb _ _) eqn:Hc; simpl.
      * apply identifierClass_all in Hc.
        split; [intros [= <-]; auto | now intros (-> & _)].
      * split; [discriminate | intros (-> & _ & _ & Hall)].
        apply identifierClass_all in Hall. congruence.
  - split; [discriminate | intros (-> & Hne & _)].
    apply truthy_nonempty in Hne. congruence.
Qed.

(** Validation either returns a value or throws an [Error]. *)
Lemma validateIdentifier_total (identifier : jsstring) :
  validateIdentifier identifier = Ok (trim identifier)
  \/ exists msg, validateIdentifier identifier = Throw (newError msg).
Proof.
  unfold validateIdentifier.
  repeat match goal with
         | |- context [if ?b then _ else _] => destruct b
         end; eauto.
Qed.

(** C3. Identifier validation fails when the trimmed identifier holds a
    character outside ASCII letters, digits, [.], [_] and [-]; it succeeds
    and returns the trimmed value when that value is not empty, at most 100
    code units long and made of such characters only; it fails when the
    trimmed value is empty or longer than 100. *)
Theorem validateIdentifier_spec (identifier : jsstring) :
  let trimmed := trim identifier in
  ((exists c, In c trimmed /\ ~ isIdentifierChar c) ->
   exists msg, validateIdentifier identifier = Throw (newError msg))
  /\ (trimmed <> [] -> (List.length trimmed <= 100)%nat ->
      Forall isIdentifierChar trimmed ->
      validateIdentifier identifier = Ok trimmed)
  /\ (trimmed = [] \/ (100 < List.length trimmed)%nat ->
      exists msg, validateIdentifier identifier = Throw (newError msg)).
Proof.
  intro trimmed. subst trimmed.
  pose proof (validateIdentifier_Ok_iff identifier (trim identifier)) as Hiff.
  destruct (validateIdentifier_total identifier) as [Hok|Hthrow].
  - apply Hiff in Hok as (_ & Hne & Hlen & Hall).
    split; [|split].
    + intros (c & Hin & Hbad). rewrite Forall_forall in Hall.
      exfalso. apply Hbad, Hall, Hin.
    + intros. apply Hiff. auto.
    + intros [He|Hl]; [congruence | lia].
  - split; [|split]; intros; auto.
    apply Hiff. auto.
Qed.

Lemma validateIdentifier_spec_witness :
  validateIdentifier "  gov.uscourts_cacd-123456 " = Ok (lit "gov.uscourts_cacd-123456")
  /\ (exists msg, validateIdentifier "Trip Down" = Throw (newError msg))
  /\ (exists msg, validateIdentifier "   " = Throw (newError msg)).
Proof.
  split; [|split].
  - apply (proj1 (proj2 (validateIdentifier_spec "  gov.uscourts_cacd-123456 "))).
    + discriminate.
    + vm_compute. lia.
    + apply identifierClass_all. reflexivity.
  - apply (proj1 (validateIdentifier_spec "Trip Down")).
    exists 32%N. split; [vm_compute; tauto | unfold isIdentifierChar; lia].
  - apply (proj2 (proj2 (validateIdentifier_spec "   "))).
    left. reflexivity.
Defined.

(** ** Numbers: canonical doubles *)

Local Open Scope Z_scope.

Lemma digits2_pos_bounds (m : positive) :
  2 ^ (Z.pos (digits2_pos m) - 1) <= Z.pos m < 2 ^ Z.pos (digits2_pos m).
Proof.
  induction m as [p IH|p IH|]; cbn [digits2_pos].
  - rewrite Pos2Z.inj_succ, (Pos2Z.inj_xI p).
    replace (Z.succ (Z.pos (digits2_pos p)) - 1)
      with (Z.succ (Z.pos (digits2_pos p) - 1)) by lia.
    rewrite !Z.pow_succ_r by lia.
    destruct IH as [IH1 IH2]. revert IH1 IH2.
    generalize (2 ^ (Z.pos (digits2_pos p) - 1)) (2 ^ Z.pos (digits2_pos p)).
    lia.
  - rewrite Pos2Z.inj_succ, (Pos2Z.inj_xO p).
    replace (Z.succ (Z.pos (digits2_pos p)) - 1)
      with (Z.succ (Z.pos (digits2_pos p) - 1)) by lia.
    rewrite !Z.pow_succ_r by lia.
    destruct IH as [IH1 IH2]. revert IH1 IH2.
    generalize (2 ^ (Z.pos (digits2_pos p) - 1)) (2 ^ Z.pos (digits2_pos p)).
    lia.
  - simpl. lia.
Qed.

(** A finite double: its exponent is in range, its mantissa has at most 53
    bits, and exactly 53 unless it is subnormal. *)
Lemma wf_finite (s : bool) (m : positive) (e : Z) :
  wf (S754_finite s m e) = true ->
  -1074 <= e <= 971 /\ Z.pos m < 2 ^ 53 /\ (-1074 < e -> 2 ^ 52 <= Z.pos m).
Proof.
  unfold wf, valid_binary, bounded, canonical_mantissa, fexp, emin, prec, emax.
  rewrite andb_true_iff, Z.eqb_eq, Z.leb_le. intros [Hc He].
  pose proof (digits2_pos_bounds m) as [Hlo Hhi].
  set (d := Z.pos (digits2_pos m)) in *.
  assert (Hd : d <= 53) by lia.
  split; [lia|]. split.
  - apply Z.lt_le_trans with (2 ^ d); [exact Hhi|].
    apply Z.pow_le_mono_r; lia.
  - intro Hn. assert (d = 53) by lia. subst d.
    replace 52 with (Z.pos (digits2_pos m) - 1) by lia. exact Hlo.
Qed.

(** [<] on two positive finite doubles. *)
Lemma SFltb_pos (m m' : positive) (e e' : Z) :
  SFltb (S754_finite false m e) (S754_finite false m' e') = true <->
  e < e' \/ (e = e' /\ Z.pos m < Z.pos m').
Proof.
  unfold SFltb, SFcompare.
  change (Pos.compare_cont Eq m m') with (Pos.compare m m').
  destruct (Z.compare_spec e e') as [He|He|He].
  - destruct (Pos.compare_spec m m') as [Hm|Hm|Hm];
      split; intro H; try discriminate; try reflexivity; lia.
  - split; [left; assumption | reflexivity].
  - split; [discriminate | lia].
Qed.

Lemma pow2_exponent_unique (n k1 k2 : Z) :
  0 <= k1 -> 0 <= k2 ->
  2 ^ 52 <= n * 2 ^ k1 < 2 ^ 53 -> 2 ^ 52 <= n * 2 ^ k2 < 2 ^ 53 -> k1 = k2.
Proof.
  assert (step : forall a b, 0 <= a -> a < b ->
            2 ^ 52 <= n * 2 ^ a -> n * 2 ^ b < 2 ^ 53 -> False).
  { intros a b Ha Hab Hlo Hhi.
    assert (Hpow : 2 * 2 ^ a <= 2 ^ b).
    { rewrite <- Z.pow_succ_r by lia. apply Z.pow_le_mono_r; lia. }
    assert (Hpos : 0 < 2 ^ a) by (apply Z.pow_pos_nonneg; lia).
    replace (2 ^ 53) with (2 * 2 ^ 52) in Hhi by reflexivity.
    assert (Hc : 0 < 2 ^ 52) by reflexivity.
    revert Hlo Hhi Hc Hpow Hpos.
    generalize (2 ^ 52) (2 ^ a) (2 ^ b). intros c pa pb Hlo Hhi Hc Hpow Hpos.
    assert (0 < n) by nia. nia. }
  intros H1 H2 [L1 U1] [L2 U2].
  destruct (Z.lt_trichotomy k1 k2) as [H|[H|H]]; [exfalso|assumption|exfalso].
  - exact (step k1 k2 H1 H L1 U2).
  - exact (step k2 k1 H2 H L2 U1).
Qed.

(** ** Row-count validation *)

Lemma rowCounts_checked : forallb rowsCheck rowCounts = true.
Proof. vm_compute. reflexivity. Qed.

Lemma rowsCheck_range (n : Z) : 1 <= n <= 10000 -> rowsCheck n = true.
Proof.
  intro Hn. pose proof rowCounts_checked as H.
  rewrite forallb_forall in H. apply H. unfold rowCounts.
  rewrite <- (Z2Nat.id n) by lia. apply in_map, in_seq. lia.
Qed.

(** An integer literal in [1, 10000] is a positive normal double carrying
    that integer, and [validateRows] accepts it. *)
Lemma ofZ_row (n : Z) :
  1 <= n <= 10000 ->
  exists m e, ofZ n = S754_finite false m e
    /\ -52 <= e <= -39 /\ Z.pos m = n * 2 ^ (- e)
    /\ 2 ^ 52 <= Z.pos m < 2 ^ 53
    /\ validateRows (ofZ n) = Ok (ofZ n).
Proof.
  intro Hn. apply rowsCheck_range in Hn. unfold rowsCheck in Hn.
  destruct (ofZ n) as [| | |[|] m e]; try discriminate.
  destruct (validateRows _) as [[| | |[|] m' e']|]; try discriminate;
    try (rewrite andb_false_r in Hn; discriminate).
  repeat (apply andb_prop in Hn as [Hn ?]).
  exists m, e.
  repeat match goal with
         | H : (_ <=? _) = true |- _ => apply Z.leb_le in H
         | H : (_ <? _) = true |- _ => apply Z.ltb_lt in H
         | H : (_ =? _) = true |- _ => apply Z.eqb_eq in H
         end.
  match goal with
  | H : (_ && _)%bool = true |- _ => apply andb_prop in H as [Hm' He']
  end.
  apply Pos.eqb_eq in Hm'. apply Z.eqb_eq in He'. subst. auto 10.
Qed.

(** What an accepted row count looks like. *)
Lemma validateRows_Ok_shape (rows v : number) :
  validateRows rows = Ok v ->
  v = rows /\ exists m e, rows = S754_finite false m e
    /\ -52 <= e <= -39
    /\ (e = -52 -> 2 ^ 52 <= Z.pos m)
    /\ (e = -39 -> Z.pos m <= 10000 * 2 ^ 39)
    /\ Z.pos m mod 2 ^ (- e) = 0.
Proof.
  unfold validateRows.
  destruct (negb (isInteger rows) || lt rows (ofZ 1) || gt rows (ofZ 10000))
    eqn:E; [discriminate|].
  intros [= <-]. split; [reflexivity|].
  apply orb_false_iff in E as [E Hgt]. apply orb_false_iff in E as [Hint Hlt].
  apply negb_false_iff in Hint.
  change (ofZ 1) with (S754_finite false 4503599627370496 (-52)) in Hlt.
  change (ofZ 10000) with (S754_finite false 5497558138880000 (-39)) in Hgt.
  unfold lt, gt in *.
  destruct rows as [s|s| |s m e]; try discriminate.
  destruct s; [discriminate|].
  exists m, e. split; [reflexivity|].
  assert (Hlt' : ~ (e < -52 \/ (e = -52 /\ Z.pos m < 4503599627370496)))
    by (rewrite <- SFltb_pos; congruence).
  assert (Hgt' : ~ (-39 < e \/ (-39 = e /\ 5497558138880000 < Z.pos m)))
    by (rewrite <- SFltb_pos; congruence).
  replace (2 ^ 52) with 4503599627370496 by reflexivity.
  replace (10000 * 2 ^ 39) with 5497558138880000 by reflexivity.
  assert (He : -52 <= e <= -39) by lia.
  repeat split; try lia.
  cbn [isInteger] in Hint.
  destruct (Z.leb_spec 0 e); [lia|]. now apply Z.eqb_eq.
Qed.

Lemma validateRows_Ok_ofZ (rows v : number) :
  wf rows = true -> validateRows rows = Ok v ->
  v = rows /\ exists n, 1 <= n <= 10000 /\ rows = ofZ n.
Proof.
  intros Hwf Hok.
  apply validateRows_Ok_shape in Hok
    as (-> & m & e & -> & He & Hlo & Hhi & Hmod).
  split; [reflexivity|].
  apply wf_finite in Hwf as (_ & Hm53 & Hm52).
  specialize (Hm52 ltac:(lia)).
  set (k := - e) in *.
  assert (Hk : 39 <= k <= 52) by (subst k; lia).
  assert (Hpk : 0 < 2 ^ k) by (apply Z.pow_pos_nonneg; lia).
  apply Z.mod_divide in Hmod; [|lia]. destruct Hmod as [n Hn].
  assert (Hk52 : 2 ^ k <= 2 ^ 52) by (apply Z.pow_le_mono_r; lia).
  assert (Hn1 : 1 <= n).
  { revert Hm52 Hk52 Hpk Hn. generalize (2 ^ 52) (2 ^ k). intros. nia. }
  assert (Hn2 : n <= 10000).
  { destruct (Z.eq_dec e (-39)) as [E|E].
    - specialize (Hhi E). replace k with 39 in * by (subst k; lia).
      revert Hhi Hpk Hn. generalize (2 ^ 39). intros. nia.
    - assert (Hk40 : 2 ^ 40 <= 2 ^ k)
        by (apply Z.pow_le_mono_r; subst k; lia).
      replace (2 ^ 53) with (8192 * 2 ^ 40) in Hm53 by reflexivity.
      assert (H40 : 0 < 2 ^ 40) by reflexivity.
      revert Hm53 Hk40 Hpk Hn H40. generalize (2 ^ 40) (2 ^ k). intros. nia. }
  exists n. split; [lia|].
  destruct (ofZ_row n) as (m' & e' & -> & He' & Hm' & Hb' & _); [lia|].
  assert (Ek : k = - e').
  { apply (pow2_exponent_unique n); try lia; rewrite <- ?Hn, <- ?Hm'; lia. }
  assert (e' = e) by (subst k; lia). subst e'.
  f_equal. apply Pos2Z.inj. subst k. lia.
Qed.

(** C8. Row-count validation succeeds exactly for the integers of
    [1, 10000] and returns the value unchanged; every other number is
    rejected with an error. In particular 1 and 10000 are accepted and 0,
    10001 and 3.5 are rejected. *)
Theorem validateRows_spec (rows : number) :
  wf rows = true ->
  (validateRows rows = Ok rows <->
   exists n, 1 <= n <= 10000 /\ rows = ofZ n)
  /\ (forall v, validateRows rows = Ok v -> v = rows)
  /\ (validateRows rows = Ok rows
      \/ validateRows rows
         = Throw (newError "rows must be an integer between 1 and 10000"))
  /\ validateRows (ofZ 1) = Ok (ofZ 1)
  /\ validateRows (ofZ 10000) = Ok (ofZ 10000)
  /\ validateRows (ofZ 0)
     = Throw (newError "rows must be an integer between 1 and 10000")
  /\ validateRows (ofZ 10001)
     = Throw (newError "rows must be an integer between 1 and 10000")
  /\ validateRows three_and_a_half
     = Throw (newError "rows must be an integer between 1 and 10000").
Proof.
  intro Hwf. split; [|split; [|split]].
  - split.
    + intro H. apply validateRows_Ok_ofZ in H; tauto.
    + intros (n & Hn & ->).
      now destruct (ofZ_row n Hn) as (? & ? & _ & _ & _ & _ & ?).
  - intros v H. apply validateRows_Ok_ofZ in H; tauto.
  - unfold validateRows. destruct (_ || _); auto.
  - repeat split; reflexivity.
Qed.

Lemma validateRows_spec_witness :
  validateRows (ofZ 50) = Ok (ofZ 50)
  /\ validateRows three_and_a_half <> Ok three_and_a_half.
Proof.
  split.
  - apply (proj1 (validateRows_spec (ofZ 50) eq_refl)).
    exists 50. split; [lia | reflexivity].
  - intro H.
    apply (proj1 (validateRows_spec three_and_a_half eq_refl)) in H.
    destruct H as (n & Hn & E).
    destruct (ofZ_row n Hn) as (m & e & E' & _ & Hm & _ & _).
    rewrite E' in E. vm_compute in E. injection E as <- <-. lia.
Defined.

Local Close Scope Z_scope.

(** ** The state monad *)

Lemma keeps_ret {A} (a : A) : keeps (ret a).
Proof. intros s r H. exact H. Qed.

Lemma keeps_throw {A} (e : exn) : keeps (@throw A e).
Proof. intros s r H. exact H. Qed.

Lemma keeps_lift {A} (x : result A) : keeps (lift x).
Proof. intros s r H. exact H. Qed.

Lemma keeps_ask {A} (ev : event) (answer : list event -> result A) :
  keeps (ask ev answer).
Proof. intros s r H. exact H. Qed.

Lemma keeps_bind {A B} (m : M A) (k : A -> M B) :
  keeps m -> (forall a, keeps (k a)) -> keeps (bind m k).
Proof.
  intros Hm Hk s r H. unfold bind. specialize (Hm s r H).
  destruct (m s) as [[a|e] s']; simpl in *; [now apply Hk | exact Hm].
Qed.

Lemma keeps_try_catch {A} (m : M A) (h : exn -> M A) :
  keeps m -> (forall e, keeps (h e)) -> keeps (try_catch m h).
Proof.
  intros Hm Hh s r H. unfold try_catch. specialize (Hm s r H).
  destruct (m s) as [[a|e] s']; simpl in *; [exact Hm | now apply Hh].
Qed.

Create HintDb keeps.
#[local] Hint Resolve keeps_ret keeps_throw keeps_lift keeps_ask
  keeps_bind keeps_try_catch : keeps.

(** ** Executable Resolver *)

Lemma resolve_cached (rt : runtime) (w : world) (s : state) (r : Resolved) :
  resolvedIa s = Some r -> resolveIaExecutable rt w s = (Ok r, s).
Proof. intro H. unfold resolveIaExecutable. now rewrite H. Qed.

Lemma keeps_resolve (rt : runtime) (w : world) :
  keeps (resolveIaExecutable rt w).
Proof. intros s r H. now rewrite (resolve_cached rt w s r H). Qed.

Lemma stores_setResolved (r : Resolved) : stores (setResolved r).
Proof. intros s r' s1 [= <- <-]. reflexivity. Qed.

Lemma stores_bind {A} (m : M A) (k : A -> M Resolved) :
  (forall a, stores (k a)) -> stores (bind m k).
Proof.
  intros Hk s r s1. unfold bind.
  destruct (m s) as [[a|e] s']; [apply Hk | discriminate].
Qed.

Lemma resolveFresh_stores (rt : runtime) (w : world) :
  stores (resolveFresh rt w).
Proof.
  unfold resolveFresh.
  destruct (negb (IS_WINDOWS w)); [apply stores_setResolved|].
  apply stores_bind. intros [|]; [apply stores_setResolved|].
  apply stores_bind. intros [c|]; [apply stores_setResolved|].
  apply stores_bind. intros [c|]; [apply stores_setResolved|].
  apply stores_bind. intros _. apply stores_setResolved.
Qed.

Lemma resolve_stores (rt : runtime) (w : world) :
  stores (resolveIaExecutable rt w).
Proof.
  intros s r s1. unfold resolveIaExecutable.
  destruct (resolvedIa s) as [r0|] eqn:E.
  - intros [= <- <-]. exact E.
  - apply resolveFresh_stores.
Qed.

(** ** Process Invoker *)

(** [checkIaAvailable] throws nothing but the Unavailable error. *)
Lemma checkIaAvailable_throws (rt : runtime) (w : world) (s s1 : state)
    (e : exn) :
  checkIaAvailable rt w s = (Throw e, s1) -> e = newError UNAVAILABLE_MESSAGE.
Proof.
  unfold checkIaAvailable, try_catch, throw.
  destruct (bind _ _ s) as [[v|e0] s0]; [discriminate|].
  now intros [= <- _].
Qed.

Lemma keeps_checkIaAvailable (rt : runtime) (w : world) :
  keeps (checkIaAvailable rt w).
Proof.
  unfold checkIaAvailable, execFileAsync.
  apply keeps_try_catch; [|auto with keeps].
  apply keeps_bind; [apply keeps_resolve|]. intro r.
  apply keeps_bind; auto with keeps.
Qed.

Lemma runIa_run (rt : runtime) (w : world) (args : list jsstring)
    (timeoutMs : number) (s s1 : state) (r : Resolved) :
  resolveIaExecutable rt w s = (Ok r, s1) ->
  runIa rt w args timeoutMs s
  = (runOutcome rt args timeoutMs
       (w_execFile w (trace s1) (command r) args (runOptions r timeoutMs)),
     {| resolvedIa := resolvedIa s1;
        trace := trace s1
                 ++ [EvExecFile (command r) args (runOptions r timeoutMs)] |}).
Proof.
  intro H. unfold runIa, bind. rewrite H.
  unfold try_catch, execFileAsync, ask, runOutcome, runOptions, throw,
    timeoutMessage.
  destruct (w_execFile _ _ _ _ _) as [out|error]; [reflexivity|].
  destruct (wasKilled error); reflexivity.
Qed.

Lemma keeps_runIa (rt : runtime) (w : world) (args : list jsstring)
    (timeoutMs : number) :
  keeps (runIa rt w args timeoutMs).
Proof.
  unfold runIa, execFileAsync.
  apply keeps_bind; [apply keeps_resolve|]. intro r.
  apply keeps_try_catch; [auto with keeps|].
  intro error. destruct (wasKilled error); auto with keeps.
Qed.

(** C5. When the child of an invocation is killed at its timeout, [runIa]
    fails with the Timeout error; its message holds the timeout in seconds
    ([timeoutMs / 1000], 120 for the default and 600 for downloads) and the
    command that was run, subcommand first. *)
Theorem runIa_timeout (rt : runtime) (w : world) (args : list jsstring)
    (timeoutMs : number) (s s1 : state) (r : Resolved) (error : exn) :
  resolveIaExecutable rt w s = (Ok r, s1) ->
  w_execFile w (trace s1) (command r) args (runOptions r timeoutMs)
  = Throw error ->
  wasKilled error = true ->
  let msg := timeoutMessage rt args timeoutMs in
  let seconds := numberToString rt (div timeoutMs (ofZ 1000)) in
  fst (runIa rt w args timeoutMs s) = Throw (newError msg)
  /\ includes msg seconds = true
  /\ includes msg (lit "ia " ++ JsString.join " " args) = true
  /\ (forall sub rest, args = sub :: rest -> includes msg sub = true)
  /\ (timeoutMs = DEFAULT_TIMEOUT_MS -> seconds = lit "120")
  /\ (timeoutMs = DOWNLOAD_TIMEOUT_MS -> seconds = lit "600").
Proof.
  intros Hres Hexec Hkill msg seconds.
  split; [|split; [|split; [|split; [|split]]]].
  - rewrite (runIa_run rt w args timeoutMs s s1 r Hres). simpl.
    rewrite Hexec. simpl. now rewrite Hkill.
  - apply includes_app.
  - assert (E : msg = (lit "ia command timed out after " ++ seconds
                       ++ lit " seconds. " ++ lit "Command: ")
                      ++ (lit "ia " ++ JsString.join " " args))
      by (rewrite <- !app_assoc; reflexivity).
    rewrite E. apply includes_suffix.
  - intros sub rest ->.
    destruct (join_cons " " sub rest) as [tail Et].
    assert (E : msg = (lit "ia command timed out after " ++ seconds
                       ++ lit " seconds. " ++ lit "Command: ia ")
                      ++ sub ++ tail)
      by (subst msg; unfold timeoutMessage; rewrite Et, <- !app_assoc;
          reflexivity).
    rewrite E. apply includes_app.
  - intros ->. reflexivity.
  - intros ->. reflexivity.
Qed.

Lemma runIa_timeout_witness :
  fst (runIa sampleRuntime (posixWorld (Throw killedError))
         [lit "download"; lit "item1"] DOWNLOAD_TIMEOUT_MS initial)
  = Throw (newError
      "ia command timed out after 600 seconds. Command: ia download item1").
Proof.
  exact (proj1 (runIa_timeout sampleRuntime (posixWorld (Throw killedError))
                  [lit "download"; lit "item1"] DOWNLOAD_TIMEOUT_MS
                  initial _ _ killedError eq_refl eq_refl eq_refl)).
Defined.

(** ** Operation handlers: the common shape *)

(** A handler is its precheck, then its body, with every thrown value
    turned into an error result. *)
Lemma handler_run (rt : runtime) (w : world) (label : jsstring)
    (body : M CallToolResult) (s : state) :
  handler rt w label body s
  = match checkIaAvailable rt w s with
    | (Throw e, s1) => (Ok (failure (message e)), s1)
    | (Ok _, s1) =>
        match body s1 with
        | (Ok res, s2) => (Ok res, s2)
        | (Throw error, s2) =>
            (Ok (failure (label ++ lit ": " ++ message error)), s2)
        end
    end.
Proof.
  unfold handler, precheck, bind, try_catch, ret.
  destruct (checkIaAvailable rt w s) as [[v|e] s1]; reflexivity.
Qed.

Lemma keeps_handler (rt : runtime) (w : world) (label : jsstring)
    (body : M CallToolResult) :
  keeps body -> keeps (handler rt w label body).
Proof.
  intro Hb. unfold handler, precheck.
  apply keeps_bind.
  - apply keeps_try_catch; [|auto with keeps].
    apply keeps_bind; [apply keeps_checkIaAvailable | auto with keeps].
  - intros [res|]; auto with keeps.
Qed.

Lemma keeps_handleSearch (rt : runtime) (w : world) (args : SearchArgs) :
  keeps (handleSearch rt w args).
Proof.
  apply keeps_handler. unfold searchBody.
  apply keeps_bind; [auto with keeps|]. intro plan.
  apply keeps_bind; [apply keeps_runIa | auto with keeps].
Qed.

Lemma keeps_handleMetadata (rt : runtime) (w : world) (args : MetadataArgs) :
  keeps (handleMetadata rt w args).
Proof.
  apply keeps_handler. unfold metadataBody.
  apply keeps_bind; [auto with keeps|]. intro id.
  apply keeps_bind; [apply keeps_runIa|]. intro out. cbv beta zeta.
  destruct (negb _); auto with keeps.
Qed.

Lemma keeps_handleList (rt : runtime) (w : world) (args : ListArgs) :
  keeps (handleList rt w args).
Proof.
  apply keeps_handler. unfold listBody.
  apply keeps_bind; [auto with keeps|]. intro id.
  apply keeps_bind; [apply keeps_runIa|]. intro out. cbv beta zeta.
  destruct (negb _); auto with keeps.
Qed.

Lemma keeps_handleDownload (rt : runtime) (w : world) (args : DownloadArgs) :
  keeps (handleDownload rt w args).
Proof.
  apply keeps_handler. unfold downloadBody.
  apply keeps_bind; [auto with keeps|]. intro plan.
  apply keeps_bind; [apply keeps_runIa|]. intro out. cbv beta zeta.
  destruct (negb _); auto with keeps.
Qed.

(** ** Memoization of the resolved executable *)

Lemma invocation_keeps (rt : runtime) (s s' : state) (r : Resolved) :
  invocation rt s s' -> resolvedIa s = Some r -> resolvedIa s' = Some r.
Proof.
  intros [w s0|w s0|w args t s0|w args s0|w args s0|w args s0|w args s0] H.
  - now apply keeps_resolve.
  - now apply keeps_checkIaAvailable.
  - now apply keeps_runIa.
  - now apply keeps_handleSearch.
  - now apply keeps_handleMetadata.
  - now apply keeps_handleList.
  - now apply keeps_handleDownload.
Qed.

Lemma later_keeps (rt : runtime) (s s' : state) (r : Resolved) :
  later rt s s' -> resolvedIa s = Some r -> resolvedIa s' = Some r.
Proof.
  induction 1 as [|s1 s2 s3 _ IH Hstep]; intro H; [exact H|].
  apply (invocation_keeps rt s2 s3 r Hstep). now apply IH.
Qed.

(** C6. Once a resolution has returned a pair, the pair is in the cache;
    resolving again, at once or after any number of later invocations
    (failed ones included) and on a host that has changed in the meantime,
    returns the same pair and asks nothing of the host; and every later
    [runIa] spawns one child of that same command in that same mode and
    does nothing else. *)
Theorem resolveIaExecutable_memoized (rt : runtime) (w : world)
    (s s1 : state) (r : Resolved) :
  resolveIaExecutable rt w s = (Ok r, s1) ->
  resolvedIa s1 = Some r
  /\ resolveIaExecutable rt w s1 = (Ok r, s1)
  /\ forall s', later rt s1 s' ->
       resolvedIa s' = Some r
       /\ (forall w', resolveIaExecutable rt w' s' = (Ok r, s'))
       /\ (forall w' args timeoutMs,
             snd (runIa rt w' args timeoutMs s')
             = {| resolvedIa := Some r;
                  trace := trace s'
                    ++ [EvExecFile (command r) args (runOptions r timeoutMs)] |}).
Proof.
  intro H. pose proof (resolve_stores rt w s r s1 H) as Hc.
  split; [exact Hc|]. split; [now apply resolve_cached|].
  intros s' Hl. pose proof (later_keeps rt s1 s' r Hl Hc) as Hc'.
  split; [exact Hc'|]. split.
  - intro w'. now apply resolve_cached.
  - intros w' args timeoutMs.
    rewrite (runIa_run rt w' args timeoutMs s' s' r
               (resolve_cached rt w' s' r Hc')).
    simpl. now rewrite Hc'.
Qed.

Lemma resolveIaExecutable_memoized_witness :
  let r := direct "C:\Users\me\.pyenv\pyenv-win\versions\3.13.7\Scripts\ia.exe" in
  let s1 := snd (resolveIaExecutable sampleRuntime pyenvWorld initial) in
  let s2 := snd (runIa sampleRuntime noCliWorld [lit "search"; lit "cats"]
                   DEFAULT_TIMEOUT_MS s1) in
  List.length (trace s1) = 6
  /\ (exists e, fst (runIa sampleRuntime noCliWorld [lit "search"; lit "cats"]
                       DEFAULT_TIMEOUT_MS s1) = Throw e)
  /\ resolveIaExecutable sampleRuntime noCliWorld s2 = (Ok r, s2).
Proof.
  intros r s1 s2. split; [reflexivity|]. split; [eexists; reflexivity|].
  destruct (resolveIaExecutable_memoized sampleRuntime pyenvWorld initial
              s1 r eq_refl) as (_ & _ & H).
  assert (L : later sampleRuntime s1 s2).
  { apply later_then with s1; [apply later_now|]. apply inv_run. }
  destruct (H s2 L) as (_ & H2 & _).
  exact (H2 noCliWorld).
Defined.

(** ** search *)

Lemma parseLines_acc (rt : runtime) (lines : list jsstring) (acc : list json) :
  parseLines rt acc lines = acc ++ parseLines rt [] lines.
Proof.
  revert acc. induction lines as [|line rest IH]; intro acc; simpl.
  - now rewrite app_nil_r.
  - destruct (JSON_parse rt line) as [v|e]; [|apply IH].
    rewrite (IH (acc ++ [v])), (IH [v]). now rewrite <- app_assoc.
Qed.

(** The loop collects the records of the lines, in line order. *)
Lemma parseLines_in_order (rt : runtime) (lines : list jsstring) :
  ParsedInOrder (JSON_parse rt) lines (parseLines rt [] lines).
Proof.
  induction lines as [|line rest IH]; simpl.
  - constructor.
  - destruct (JSON_parse rt line) as [v|e] eqn:E.
    + rewrite parseLines_acc. simpl. now apply PIO_keep.
    + now apply PIO_skip with e.
Qed.

(** The lines determine their records. *)
Lemma ParsedInOrder_functional (parse : jsstring -> result json)
    (lines : list jsstring) (recs recs' : list json) :
  ParsedInOrder parse lines recs -> ParsedInOrder parse lines recs' ->
  recs = recs'.
Proof.
  intro H. revert recs'.
  induction H as [|line e lines recs E _ IH|line v lines recs E _ IH];
    intros recs' H'; inversion H'; subst; try congruence.
  - now apply IH.
  - f_equal; [congruence | now apply IH].
Qed.

Lemma ParsedInOrder_length (parse : jsstring -> result json)
    (lines : list jsstring) (recs : list json) :
  ParsedInOrder parse lines recs ->
  List.length recs = List.length (filter (parses parse) lines).
Proof.
  induction 1 as [|line e lines recs E _ IH|line v lines recs E _ IH];
    cbn [filter]; [reflexivity| |]; unfold parses in *; rewrite E;
    simpl; congruence.
Qed.

Lemma handleSearch_run (rt : runtime) (w : world) (args : SearchArgs)
    (s s1 s2 : state) (v : jsstring) (plan : SearchPlan) (out : IaResult) :
  checkIaAvailable rt w s = (Ok v, s1) ->
  searchPlan rt args = Ok plan ->
  runIa rt w (sp_args plan) DEFAULT_TIMEOUT_MS s1 = (Ok out, s2) ->
  handleSearch rt w args s
  = (Ok (success
           (JSON_stringify rt
              (searchOutput plan (parseLines rt [] (outputLines (stdout out))))
              2)),
     s2).
Proof.
  intros Hcheck Hplan Hrun. unfold handleSearch.
  rewrite handler_run, Hcheck. unfold searchBody, bind, lift.
  now rewrite Hplan, Hrun.
Qed.

(** C1. When the subprocess of a search succeeds, the handler parses the
    lines of its (trimmed) standard output one by one, drops every line
    that fails to parse, and returns a result whose [results] are the parsed
    records in line order and whose [total_results] is their number. For an
    output of two lines of which one parses and one does not,
    [total_results] is 1 and [results] holds the one record. *)
Theorem handleSearch_results (rt : runtime) (w : world) (args : SearchArgs)
    (s s1 s2 : state) (v : jsstring) (plan : SearchPlan) (out : IaResult) :
  checkIaAvailable rt w s = (Ok v, s1) ->
  searchPlan rt args = Ok plan ->
  runIa rt w (sp_args plan) DEFAULT_TIMEOUT_MS s1 = (Ok out, s2) ->
  exists recs : list json,
    handleSearch rt w args s
    = (Ok (success
             (JSON_stringify rt
                (JObject
                   [ (lit "total_results", JNumber (ofNat (List.length recs)));
                     (lit "page", JNumber (sp_page plan));
                     (lit "rows", JNumber (sp_rows plan));
                     (lit "results", JArray recs) ])
                2)),
       s2)
    /\ ParsedInOrder (JSON_parse rt) (outputLines (stdout out)) recs
    /\ List.length recs
       = List.length (filter (parses (JSON_parse rt)) (outputLines (stdout out)))
    /\ (forall l1 l2 good e,
          outputLines (stdout out) = [l1; l2] ->
          (JSON_parse rt l1 = Throw e /\ JSON_parse rt l2 = Ok good)
          \/ (JSON_parse rt l1 = Ok good /\ JSON_parse rt l2 = Throw e) ->
          recs = [good] /\ ofNat (List.length recs) = ofZ 1).
Proof.
  intros Hcheck Hplan Hrun.
  exists (parseLines rt [] (outputLines (stdout out))).
  pose proof (parseLines_in_order rt (outputLines (stdout out))) as Hin.
  split; [|split; [|split]].
  - now apply handleSearch_run with s1 v.
  - exact Hin.
  - now apply ParsedInOrder_length.
  - intros l1 l2 good e Hlines Hcase. rewrite Hlines in *.
    assert (E : parseLines rt [] [l1; l2] = [good]).
    { apply (ParsedInOrder_functional (JSON_parse rt) [l1; l2]); [exact Hin|].
      destruct Hcase as [[H1 H2]|[H1 H2]].
      - apply PIO_skip with e; [exact H1|].
        apply PIO_keep; [exact H2 | constructor].
      - apply PIO_keep; [exact H1|].
        apply PIO_skip with e; [exact H2 | constructor]. }
    rewrite E. split; reflexivity.
Qed.

Lemma handleSearch_results_witness :
  let w := posixWorld (Ok {| stdout := lit "not json" ++ LF ++ lit "{x}" ++ LF;
                             ia_stderr := [] |}) in
  let args := {| query := lit "title:Apollo"; fields := None;
                 rows := Some (ofZ 2); page := Some (ofZ 1) |} in
  fst (handleSearch sampleRuntime w args initial)
  = Ok (success
          (printJson
             (JObject
                [ (lit "total_results", JNumber (ofZ 1));
                  (lit "page", JNumber (ofZ 1));
                  (lit "rows", JNumber (ofZ 2));
                  (lit "results", JArray [JString (lit "{x}")]) ]))).
Proof.
  intros w args.
  destruct (handleSearch_results sampleRuntime w args initial
              (snd (checkIaAvailable sampleRuntime w initial))
              (snd (handleSearch sampleRuntime w args initial))
              (lit "1.6.0")
              {| sp_args := [lit "search"; lit "title:Apollo";
                             lit "--parameters"; lit "page=1&rows=2"];
                 sp_page := ofZ 1; sp_rows := ofZ 2 |}
              {| stdout := lit "not json" ++ LF ++ lit "{x}" ++ LF;
                 ia_stderr := [] |}
              eq_refl eq_refl eq_refl)
    as (recs & Hrun & _ & _ & Htwo).
  destruct (Htwo (lit "not json") (lit "{x}") (JString (lit "{x}"))
              (syntaxError "Unexpected token") eq_refl
              (or_introl (conj eq_refl eq_refl))) as [-> _].
  rewrite Hrun. reflexivity.
Defined.

(** *** Which lines the handler sees *)

Lemma trimStart_whitespace (ws s : jsstring) :
  forallb isWhiteSpace ws = true -> trimStart (ws ++ s) = trimStart s.
Proof.
  induction ws as [|c ws IH]; simpl; intro H; [reflexivity|].
  apply andb_prop in H as [Hc Hws]. rewrite Hc. now apply IH.
Qed.

(** Trimming removes the white space around a text that starts and ends
    with other characters, and nothing else. *)
Lemma trim_bounded (c d : N) (mid lead tail : jsstring) :
  isWhiteSpace c = false -> isWhiteSpace d = false ->
  forallb isWhiteSpace lead = true -> forallb isWhiteSpace tail = true ->
  trim (lead ++ (c :: mid ++ [d]) ++ tail) = c :: mid ++ [d].
Proof.
  intros Hc Hd Hlead Htail. unfold trim, trimEnd.
  rewrite trimStart_whitespace by exact Hlead.
  cbn [app trimStart]. rewrite Hc.
  change (c :: (mid ++ [d]) ++ tail) with ((c :: mid ++ [d]) ++ tail).
  rewrite rev_app_distr, trimStart_whitespace
    by (rewrite forallb_forall in *; intros x Hx; apply Htail;
        now apply in_rev).
  rewrite app_comm_cons, rev_app_distr. cbn [rev app trimStart].
  rewrite Hd. change (d :: rev (c :: mid)) with ([d] ++ rev (c :: mid)).
  rewrite <- (rev_app_distr (c :: mid) [d]) at 1.
  apply rev_involutive.
Qed.

Lemma split_single (sep : N) (l : jsstring) :
  ~ In sep l -> split sep l = [l].
Proof.
  induction l as [|c l IH]; simpl; intro H; [reflexivity|].
  destruct (N.eqb_spec c sep) as [->|_]; [tauto|].
  rewrite IH by tauto. reflexivity.
Qed.

Lemma split_app (sep : N) (l rest : jsstring) :
  ~ In sep l -> split sep (l ++ sep :: rest) = l :: split sep rest.
Proof.
  induction l as [|c l IH]; simpl; intro H.
  - now rewrite N.eqb_refl.
  - destruct (N.eqb_spec c sep) as [->|_]; [tauto|].
    rewrite IH by tauto. reflexivity.
Qed.

Lemma split_join (lines : list jsstring) :
  lines <> [] -> Forall (fun l => ~ In 10%N l) lines ->
  split 10 (JsString.join LF lines) = lines.
Proof.
  induction lines as [|l ls IH]; intros Hne Hall; [congruence|].
  inversion Hall as [|? ? Hl Hls]; subst.
  destruct ls as [|l' ls]; cbn [JsString.join].
  - now apply split_single.
  - unfold LF at 1. cbn [app]. rewrite split_app by exact Hl.
    f_equal. apply IH; [discriminate | exact Hls].
Qed.

(** The handler sees the lines that were printed: for non-empty lines
    without line feeds, joined by line feeds, whose first and last
    characters are not white space, followed by any white space. *)
Lemma outputLines_printed (lines : list jsstring) (c d : N)
    (mid tail : jsstring) :
  Forall (fun l => l <> [] /\ ~ In 10%N l) lines ->
  JsString.join LF lines = c :: mid ++ [d] ->
  isWhiteSpace c = false -> isWhiteSpace d = false ->
  forallb isWhiteSpace tail = true ->
  outputLines (JsString.join LF lines ++ tail) = lines.
Proof.
  intros Hall Hshape Hc Hd Htail. unfold outputLines.
  rewrite Hshape.
  change ((c :: mid ++ [d]) ++ tail) with ([] ++ (c :: mid ++ [d]) ++ tail).
  rewrite (trim_bounded c d mid [] tail Hc Hd eq_refl Htail).
  rewrite <- Hshape.
  assert (Hne : lines <> []) by (intros ->; discriminate).
  rewrite split_join.
  - apply forallb_filter_id. (* every line is non-empty *)
    rewrite forallb_forall. intros l Hl.
    rewrite Forall_forall in Hall. apply truthy_nonempty, (Hall l Hl).
  - exact Hne.
  - eapply Forall_impl; [|exact Hall]. intros l [_ H]. exact H.
Qed.

(** ** metadata *)

(** Neither the resolver nor the invoker uses [JSON.parse]. *)
Lemma checkIaAvailable_withParser (rt : runtime) (w : world)
    (parse : jsstring -> result json) :
  checkIaAvailable (withParser rt parse) w = checkIaAvailable rt w.
Proof. reflexivity. Qed.

Lemma runIa_withParser (rt : runtime) (w : world)
    (parse : jsstring -> result json) :
  runIa (withParser rt parse) w = runIa rt w.
Proof. reflexivity. Qed.

Lemma handleMetadata_run (rt : runtime) (w : world) (args : MetadataArgs)
    (s s1 s2 : state) (v identifier : jsstring) (out : IaResult) :
  checkIaAvailable rt w s = (Ok v, s1) ->
  validateIdentifier (m_identifier args) = Ok identifier ->
  runIa rt w [lit "metadata"; identifier] DEFAULT_TIMEOUT_MS s1 = (Ok out, s2) ->
  handleMetadata rt w args s
  = (if negb (JsString.truthy (trim (stdout out))) then
       Ok (failure (lit "No metadata found for " ++ dq ++ identifier ++ dq
                    ++ lit ". The item may not exist."))
     else
       match JSON_parse rt (trim (stdout out)) with
       | Ok doc => Ok (success (JSON_stringify rt doc 2))
       | Throw e =>
           Ok (failure (lit "Metadata retrieval failed: " ++ message e))
       end,
     s2).
Proof.
  intros Hcheck Hid Hrun. unfold handleMetadata.
  rewrite handler_run, Hcheck. unfold metadataBody, bind, lift.
  rewrite Hid, Hrun. cbv beta zeta.
  destruct (negb _); [reflexivity|].
  destruct (JSON_parse rt _); reflexivity.
Qed.

(** C4. When the process of a metadata call succeeds with an output that
    is empty or white space only, the handler returns the not-found error,
    whose message holds the validated identifier, and the answer is the same
    whatever [JSON.parse] would do: nothing is parsed. When the output is
    not empty it is parsed as one JSON document, which is returned
    pretty-printed (a document that fails to parse gives the error of the
    parser, labelled as a failure of the retrieval). *)
Theorem handleMetadata_output (rt : runtime) (w : world) (args : MetadataArgs)
    (s s1 s2 : state) (v identifier : jsstring) (out : IaResult) :
  checkIaAvailable rt w s = (Ok v, s1) ->
  validateIdentifier (m_identifier args) = Ok identifier ->
  runIa rt w [lit "metadata"; identifier] DEFAULT_TIMEOUT_MS s1 = (Ok out, s2) ->
  let notFound :=
    lit "No metadata found for " ++ dq ++ identifier ++ dq
    ++ lit ". The item may not exist." in
  (trim (stdout out) = [] ->
   handleMetadata rt w args s = (Ok (failure notFound), s2)
   /\ includes notFound identifier = true
   /\ forall parse,
        handleMetadata (withParser rt parse) w args s
        = (Ok (failure notFound), s2))
  /\ (trim (stdout out) <> [] ->
      handleMetadata rt w args s
      = (match JSON_parse rt (trim (stdout out)) with
         | Ok doc => Ok (success (JSON_stringify rt doc 2))
         | Throw e =>
             Ok (failure (lit "Metadata retrieval failed: " ++ message e))
         end,
         s2)).
Proof.
  intros Hcheck Hid Hrun notFound. split.
  - intro Hempty. split; [|split].
    + rewrite (handleMetadata_run rt w args s s1 s2 v identifier out
                 Hcheck Hid Hrun).
      now rewrite Hempty.
    + subst notFound.
      change (lit "No metadata found for " ++ dq ++ identifier ++ dq
              ++ lit ". The item may not exist.")
        with ((lit "No metadata found for " ++ dq) ++ identifier ++ dq
              ++ lit ". The item may not exist.").
      apply includes_app.
    + intro parse.
      rewrite (handleMetadata_run (withParser rt parse) w args s s1 s2 v
                 identifier out Hcheck Hid Hrun).
      now rewrite Hempty.
  - intro Hne. apply truthy_nonempty in Hne.
    rewrite (handleMetadata_run rt w args s s1 s2 v identifier out
               Hcheck Hid Hrun).
    now rewrite Hne.
Qed.

Lemma handleMetadata_output_witness :
  let w := posixWorld (Ok {| stdout := LF; ia_stderr := [] |}) in
  fst (handleMetadata sampleRuntime w
         {| m_identifier := lit "nonexistent-item-xyz" |} initial)
  = Ok (failure (lit "No metadata found for " ++ dq
                 ++ lit "nonexistent-item-xyz" ++ dq
                 ++ lit ". The item may not exist.")).
Proof.
  intro w.
  destruct (handleMetadata_output sampleRuntime w
              {| m_identifier := lit "nonexistent-item-xyz" |} initial
              (snd (checkIaAvailable sampleRuntime w initial))
              (snd (handleMetadata sampleRuntime w
                      {| m_identifier := lit "nonexistent-item-xyz" |} initial))
              (lit "1.6.0") (lit "nonexistent-item-xyz")
              {| stdout := LF; ia_stderr := [] |}
              eq_refl eq_refl eq_refl) as [Hempty _].
  destruct (Hempty eq_refl) as [Hrun _]. rewrite Hrun. reflexivity.
Defined.

(** ** download *)

Lemma trimStart_head (s t : jsstring) (c : N) :
  trimStart s = c :: t -> isWhiteSpace c = false.
Proof.
  induction s as [|a s IH]; simpl; [discriminate|].
  destruct (isWhiteSpace a) eqn:E; [exact IH|].
  intros [= <- _]. exact E.
Qed.

Lemma trimStart_nil (s : jsstring) :
  trimStart s = [] <-> forallb isWhiteSpace s = true.
Proof.
  induction s as [|a s IH]; simpl; [tauto|].
  destruct (isWhiteSpace a); simpl; [exact IH|].
  split; discriminate.
Qed.

Lemma forallb_rev {A} (f : A -> bool) (l : list A) :
  forallb f (rev l) = forallb f l.
Proof.
  apply eq_true_iff_eq. rewrite !forallb_forall.
  split; intros H x Hx; apply H; now apply in_rev in Hx || apply in_rev.
Qed.

(** A text trims to nothing exactly when it is white space only. *)
Lemma trim_nil (s : jsstring) :
  trim s = [] <-> forallb isWhiteSpace s = true.
Proof.
  unfold trim, trimEnd. split.
  - intro H. apply (f_equal (@rev N)) in H. rewrite rev_involutive in H.
    simpl in H. apply trimStart_nil in H. rewrite forallb_rev in H.
    destruct (trimStart s) as [|c t] eqn:E; [now apply trimStart_nil|].
    apply trimStart_head in E. simpl in H. rewrite E in H. discriminate.
  - intro H. apply trimStart_nil in H. now rewrite H.
Qed.

(** The text [handleDownload] reports is empty exactly when standard
    output and standard error hold nothing but white space. *)
Lemma downloadOutput_nil (out : IaResult) :
  downloadOutput out = [] <->
  forallb isWhiteSpace (stdout out ++ ia_stderr out) = true.
Proof.
  unfold downloadOutput. rewrite trim_nil.
  destruct out as [so se]. cbn [stdout ia_stderr filter].
  destruct so as [|a so], se as [|b se]; cbn [JsString.truthy JsString.join];
    rewrite ?app_nil_r; try tauto.
  rewrite !forallb_app. unfold LF. cbn [forallb].
  change (isWhiteSpace 10) with true. cbn [andb]. tauto.
Qed.

Lemma handleDownload_run (rt : runtime) (w : world) (args : DownloadArgs)
    (s s1 s2 : state) (v identifier : jsstring) (iaArgs : list jsstring)
    (out : IaResult) :
  checkIaAvailable rt w s = (Ok v, s1) ->
  downloadPlan args = Ok (identifier, iaArgs) ->
  runIa rt w iaArgs DOWNLOAD_TIMEOUT_MS s1 = (Ok out, s2) ->
  handleDownload rt w args s
  = (Ok (success
           (if negb (JsString.truthy (downloadOutput out)) then
              lit "Download completed for " ++ dq ++ identifier ++ dq
              ++ NO_OUTPUT_NOTE
            else if isDryRun args then
              lit "Dry run for " ++ dq ++ identifier ++ dq ++ lit ":"
              ++ LF ++ downloadOutput out
            else
              lit "Download completed for " ++ dq ++ identifier ++ dq
              ++ lit ":" ++ LF ++ downloadOutput out)),
     s2).
Proof.
  intros Hcheck Hplan Hrun. unfold handleDownload.
  rewrite handler_run, Hcheck. unfold downloadBody, bind, lift.
  rewrite Hplan. cbn [fst snd]. rewrite Hrun. cbv beta zeta.
  destruct (negb _); reflexivity.
Qed.

(** C7, refuted as stated. A process that prints a lone line feed has a
    non-empty output, yet a dry run over it answers with the no-output
    message and not with the dry-run message. *)
Lemma handleDownload_blank_output :
  let out := {| stdout := LF; ia_stderr := [] |} in
  let args := {| identifier := lit "item1"; glob := None; destdir := None;
                 format := None; dry_run := Some true |} in
  let text := lit "Download completed for " ++ dq ++ lit "item1" ++ dq
              ++ NO_OUTPUT_NOTE in
  stdout out ++ ia_stderr out <> []
  /\ fst (handleDownload sampleRuntime (posixWorld (Ok out)) args initial)
     = Ok (success text)
  /\ includes text (lit "Dry run") = false.
Proof.
  intros out args text. split; [discriminate|]. split; reflexivity.
Qed.

(** C7, amended. When the process of a download succeeds, the handler
    reports standard output and standard error, each when not empty, joined
    by a line feed and trimmed. If that text is empty (both streams are
    empty or white space only) the result is a success with the no-output
    message; otherwise it is a success with the text, after the dry-run
    message when [dry_run] is true and after the completion message
    otherwise. *)
Theorem handleDownload_output (rt : runtime) (w : world) (args : DownloadArgs)
    (s s1 s2 : state) (v identifier : jsstring) (iaArgs : list jsstring)
    (out : IaResult) :
  checkIaAvailable rt w s = (Ok v, s1) ->
  downloadPlan args = Ok (identifier, iaArgs) ->
  runIa rt w iaArgs DOWNLOAD_TIMEOUT_MS s1 = (Ok out, s2) ->
  let output := downloadOutput out in
  let heading :=
    if isDryRun args
    then lit "Dry run for " ++ dq ++ identifier ++ dq ++ lit ":" ++ LF
    else lit "Download completed for " ++ dq ++ identifier ++ dq ++ lit ":"
         ++ LF in
  (output = [] ->
   handleDownload rt w args s
   = (Ok (success (lit "Download completed for " ++ dq ++ identifier ++ dq
                   ++ NO_OUTPUT_NOTE)), s2))
  /\ (output <> [] ->
      handleDownload rt w args s = (Ok (success (heading ++ output)), s2)
      /\ includes (heading ++ output) output = true)
  /\ (output = [] <->
      forallb isWhiteSpace (stdout out ++ ia_stderr out) = true)
  /\ (stdout out ++ ia_stderr out = [] -> output = [])
  /\ (ia_stderr out = [] -> output = trim (stdout out)).
Proof.
  intros Hcheck Hplan Hrun output heading.
  pose proof (handleDownload_run rt w args s s1 s2 v identifier iaArgs out
                Hcheck Hplan Hrun) as H.
  split; [|split; [|split; [|split]]].
  - intro He. rewrite H. fold output. now rewrite He.
  - intro Hne. split; [|apply includes_suffix].
    rewrite H. fold output. apply truthy_nonempty in Hne. rewrite Hne.
    subst heading. cbn [negb].
    destruct (isDryRun args); now rewrite <- !app_assoc.
  - apply downloadOutput_nil.
  - intro He. apply downloadOutput_nil. now rewrite He.
  - intro He. subst output. unfold downloadOutput. rewrite He.
    destruct (stdout out); reflexivity.
Qed.

Lemma handleDownload_output_witness :
  let out := {| stdout := lit "item1/a.pdf" ++ LF; ia_stderr := [] |} in
  let args := {| identifier := lit "item1"; glob := None; destdir := None;
                 format := None; dry_run := Some true |} in
  fst (handleDownload sampleRuntime (posixWorld (Ok out)) args initial)
  = Ok (success (lit "Dry run for " ++ dq ++ lit "item1" ++ dq ++ lit ":"
                 ++ LF ++ lit "item1/a.pdf")).
Proof.
  intros out args.
  destruct (handleDownload_output sampleRuntime (posixWorld (Ok out)) args
              initial
              (snd (checkIaAvailable sampleRuntime (posixWorld (Ok out)) initial))
              (snd (handleDownload sampleRuntime (posixWorld (Ok out)) args
                      initial))
              (lit "1.6.0") (lit "item1")
              [lit "download"; lit "item1"; lit "--dry-run"] out
              eq_refl eq_refl eq_refl) as (_ & Hfull & _).
  destruct Hfull as [Hrun _]; [discriminate|].
  rewrite Hrun. reflexivity.
Defined.

(** ** Falsy optional arguments *)

(** The argument vector of a search, for a query that validates. *)
Lemma searchPlan_default (rt : runtime) (q : jsstring) (r p : option number) :
  given Number.truthy r = None -> given Number.truthy p = None ->
  searchPlan rt {| query := q; fields := None; rows := r; page := p |}
  = match validateQuery q with
    | Ok query =>
        Ok {| sp_args := [lit "search"; query; lit "--parameters";
                          lit "page=1&rows=50"];
              sp_page := ofZ 1; sp_rows := ofZ 50 |}
    | Throw e => Throw e
    end.
Proof.
  intros Hr Hp. unfold searchPlan. cbn [query rows page fields].
  rewrite Hr, Hp. destruct (validateQuery q); reflexivity.
Qed.

(** C9. A falsy optional argument is treated as absent and never reaches
    its validator. A search with [rows = 0] or [page = 0] behaves as one
    without them, on the defaults 50 and 1, although [validateRows] and
    [validatePage] reject 0; a download with an empty [glob], [destdir] or
    [format] behaves as one without them, although their validators reject
    the empty string. *)
Theorem falsy_optionals_absent (rt : runtime) (w : world) (s : state)
    (q id : jsstring) (fs : option (list jsstring)) (dry : option bool) :
  let zero := ofZ 0 in
  let search r p := {| query := q; fields := fs; rows := r; page := p |} in
  let download g d f :=
    {| identifier := id; glob := g; destdir := d; format := f;
       dry_run := dry |} in
  (forall p, searchPlan rt (search (Some zero) p) = searchPlan rt (search None p))
  /\ (forall r, searchPlan rt (search r (Some zero)) = searchPlan rt (search r None))
  /\ handleSearch rt w (search (Some zero) (Some zero)) s
     = handleSearch rt w (search None None) s
  /\ searchPlan rt {| query := q; fields := None; rows := Some zero;
                      page := Some zero |}
     = match validateQuery q with
       | Ok query =>
           Ok {| sp_args := [lit "search"; query; lit "--parameters";
                             lit "page=1&rows=50"];
                 sp_page := ofZ 1; sp_rows := ofZ 50 |}
       | Throw e => Throw e
       end
  /\ validateRows zero
     = Throw (newError "rows must be an integer between 1 and 10000")
  /\ validatePage zero = Throw (newError "page must be a positive integer")
  /\ (forall g d f,
        In g [None; Some []] -> In d [None; Some []] -> In f [None; Some []] ->
        downloadPlan (download g d f) = downloadPlan (download None None None)
        /\ handleDownload rt w (download g d f) s
           = handleDownload rt w (download None None None) s)
  /\ validateGlob [] = Throw (newError "Glob pattern must not be empty")
  /\ validateDestdir []
     = Throw (newError "Destination directory must not be empty")
  /\ validateFormat [] = Throw (newError "Format must not be empty").
Proof.
  intros zero search download.
  assert (Hs : forall p, searchPlan rt (search (Some zero) p)
                         = searchPlan rt (search None p)) by reflexivity.
  assert (Hp : forall r, searchPlan rt (search r (Some zero))
                         = searchPlan rt (search r None)) by reflexivity.
  assert (Hd : forall g d f,
             In g [None; Some []] -> In d [None; Some []] ->
             In f [None; Some []] ->
             downloadPlan (download g d f)
             = downloadPlan (download None None None)).
  { intros g d f [<-|[<-|[]]] [<-|[<-|[]]] [<-|[<-|[]]]; reflexivity. }
  split; [exact Hs|]. split; [exact Hp|]. split.
  { unfold handleSearch, searchBody. now rewrite Hs, Hp. }
  split; [now apply searchPlan_default|].
  split; [reflexivity|]. split; [reflexivity|]. split.
  { intros g d f Hg Hdd Hf. split; [now apply Hd|].
    unfold handleDownload, downloadBody. now rewrite (Hd g d f Hg Hdd Hf). }
  repeat split.
Qed.

(** ** Values that begin with a hyphen *)

(** After a successful precheck the executable is resolved. *)
Lemma checkIaAvailable_resolved (rt : runtime) (w : world) (s s1 : state)
    (v : jsstring) :
  checkIaAvailable rt w s = (Ok v, s1) -> exists r, resolvedIa s1 = Some r.
Proof.
  unfold checkIaAvailable, try_catch, bind.
  destruct (resolveIaExecutable rt w s) as [[r|e] s0] eqn:E; [|discriminate].
  apply resolve_stores in E. unfold execFileAsync, ask, ret.
  destruct (w_execFile _ _ _ _ _); [|discriminate].
  intros [= _ <-]. exists r. exact E.
Qed.

(** With the executable resolved, [runIa] is one [execFile] of the cached
    command with the argument vector as it was given. *)
Lemma runIa_spawn (rt : runtime) (w : world) (args : list jsstring)
    (timeoutMs : number) (s : state) (r : Resolved) :
  resolvedIa s = Some r ->
  snd (runIa rt w args timeoutMs s)
  = {| resolvedIa := Some r;
       trace := trace s
                ++ [EvExecFile (command r) args (runOptions r timeoutMs)] |}.
Proof.
  intro H.
  rewrite (runIa_run rt w args timeoutMs s s r (resolve_cached rt w s r H)).
  simpl. now rewrite H.
Qed.

Lemma handleDownload_state (rt : runtime) (w : world) (args : DownloadArgs)
    (s s1 : state) (v identifier : jsstring) (iaArgs : list jsstring) :
  checkIaAvailable rt w s = (Ok v, s1) ->
  downloadPlan args = Ok (identifier, iaArgs) ->
  snd (handleDownload rt w args s)
  = snd (runIa rt w iaArgs DOWNLOAD_TIMEOUT_MS s1).
Proof.
  intros Hcheck Hplan. unfold handleDownload.
  rewrite handler_run, Hcheck. unfold downloadBody, bind, lift.
  rewrite Hplan. cbn [fst snd].
  destruct (runIa rt w iaArgs DOWNLOAD_TIMEOUT_MS s1) as [[out|e] s2];
    [|reflexivity].
  cbv beta zeta. destruct (negb _); reflexivity.
Qed.

Lemma handleMetadata_state (rt : runtime) (w : world) (args : MetadataArgs)
    (s s1 : state) (v identifier : jsstring) :
  checkIaAvailable rt w s = (Ok v, s1) ->
  validateIdentifier (m_identifier args) = Ok identifier ->
  snd (handleMetadata rt w args s)
  = snd (runIa rt w [lit "metadata"; identifier] DEFAULT_TIMEOUT_MS s1).
Proof.
  intros Hcheck Hid. unfold handleMetadata.
  rewrite handler_run, Hcheck. unfold metadataBody, bind, lift.
  rewrite Hid.
  destruct (runIa rt w _ DEFAULT_TIMEOUT_MS s1) as [[out|e] s2];
    [|reflexivity].
  cbv beta zeta. destruct (negb _); [reflexivity|].
  destruct (JSON_parse rt _); reflexivity.
Qed.

(** C10. The identifier [--help] and the glob [-x] pass validation
    unchanged, and once the precheck has passed the handlers spawn the CLI
    with them as the argument that follows the subcommand and as the value
    of [--glob], with nothing in between that would mark them as data. *)
Theorem hyphen_values_reach_cli (rt : runtime) (w : world) (s s1 : state)
    (v : jsstring) :
  checkIaAvailable rt w s = (Ok v, s1) ->
  let args := {| identifier := lit "--help"; glob := Some (lit "-x");
                 destdir := None; format := None; dry_run := None |} in
  validateIdentifier "--help" = Ok (lit "--help")
  /\ validateGlob "-x" = Ok (lit "-x")
  /\ downloadPlan args
     = Ok (lit "--help", [lit "download"; lit "--help"; lit "--glob"; lit "-x"])
  /\ exists r,
       resolvedIa s1 = Some r
       /\ trace (snd (handleDownload rt w args s))
          = trace s1
            ++ [EvExecFile (command r)
                  [lit "download"; lit "--help"; lit "--glob"; lit "-x"]
                  (runOptions r DOWNLOAD_TIMEOUT_MS)]
       /\ trace (snd (handleMetadata rt w {| m_identifier := lit "--help" |} s))
          = trace s1
            ++ [EvExecFile (command r) [lit "metadata"; lit "--help"]
                  (runOptions r DEFAULT_TIMEOUT_MS)].
Proof.
  intros Hcheck args.
  split; [reflexivity|]. split; [reflexivity|]. split; [reflexivity|].
  destruct (checkIaAvailable_resolved rt w s s1 v Hcheck) as [r Hr].
  exists r. split; [exact Hr|]. split.
  - rewrite (handleDownload_state rt w args s s1 v (lit "--help")
               [lit "download"; lit "--help"; lit "--glob"; lit "-x"]
               Hcheck eq_refl).
    now rewrite (runIa_spawn rt w _ DOWNLOAD_TIMEOUT_MS s1 r Hr).
  - rewrite (handleMetadata_state rt w {| m_identifier := lit "--help" |}
               s s1 v (lit "--help") Hcheck eq_refl).
    now rewrite (runIa_spawn rt w _ DEFAULT_TIMEOUT_MS s1 r Hr).
Qed.

Lemma hyphen_values_reach_cli_witness :
  let w := posixWorld (Ok {| stdout := lit "usage: ia download"; ia_stderr := [] |}) in
  let args := {| identifier := lit "--help"; glob := Some (lit "-x");
                 destdir := None; format := None; dry_run := None |} in
  exists opts,
    last (trace (snd (handleDownload sampleRuntime w args initial)))
      (EvConsoleError [])
    = EvExecFile (lit "ia")
        [lit "download"; lit "--help"; lit "--glob"; lit "-x"] opts.
Proof.
  intros w args.
  destruct (hyphen_values_reach_cli sampleRuntime w initial
              (snd (checkIaAvailable sampleRuntime w initial))
              (lit "1.6.0") eq_refl)
    as (_ & _ & _ & r & Hr & Hd & _).
  injection Hr as <-. fold args in Hd. rewrite Hd.
  eexists. reflexivity.
Defined.

(** ** Error reporting *)

(** Once the executable is resolved, [runIa] returns the output of the
    child or throws one of the two invoker errors. *)
Lemma runIa_resolved_outcome (rt : runtime) (w : world) (args : list jsstring)
    (timeoutMs : number) (s : state) (r : Resolved) :
  resolvedIa s = Some r ->
  match fst (runIa rt w args timeoutMs s) with
  | Ok _ => True
  | Throw e => invokerError rt e
  end.
Proof.
  intro H.
  rewrite (runIa_run rt w args timeoutMs s s r (resolve_cached rt w s r H)).
  cbn [fst]. unfold runOutcome.
  destruct (w_execFile _ _ _ _ _) as [out|error]; [exact I|].
  destruct (wasKilled error); constructor.
Qed.

Lemma failureLabel_mentions (op : operation) (rest : jsstring) :
  mentionsOperation op (failureLabel op ++ rest) = true.
Proof.
  unfold mentionsOperation, asciiLower. rewrite map_app.
  destruct op; cbn [failureLabel operationName].
  - apply (includes_app [] (lit "search") (lit " failed" ++ _)).
  - apply (includes_app [] (lit "metadata") (lit " retrieval failed" ++ _)).
  - apply (includes_app [] (lit "list") (lit " failed" ++ _)).
  - apply (includes_app [] (lit "download") (lit " failed" ++ _)).
Qed.

(** What the [try] block of each tool can throw once the precheck has
    passed, and what its error results are. *)
Lemma toolBody_outcome (rt : runtime) (w : world) (req : request)
    (s : state) (r : Resolved) :
  resolvedIa s = Some r ->
  match fst (toolBody rt w req s) with
  | Throw e =>
      validationError rt req = Some e
      \/ invokerError rt e
      \/ (operationOf req = OpMetadata
          /\ exists text, JSON_parse rt text = Throw e)
  | Ok res => isError res = true -> notFound req res
  end.
Proof.
  intro H. destruct req as [args|args|args|args]; cbn [toolBody validationError].
  - unfold searchBody, bind, lift.
    destruct (searchPlan rt args) as [plan|e]; [|now left].
    pose proof (runIa_resolved_outcome rt w (sp_args plan) DEFAULT_TIMEOUT_MS
                  s r H) as Hrun.
    destruct (runIa rt w _ _ s) as [[out|e] s2]; cbn [fst] in *.
    + discriminate.
    + right. now left.
  - unfold metadataBody, bind, lift.
    destruct (validateIdentifier (m_identifier args)) as [id|e]; [|now left].
    pose proof (runIa_resolved_outcome rt w [lit "metadata"; id]
                  DEFAULT_TIMEOUT_MS s r H) as Hrun.
    destruct (runIa rt w _ _ s) as [[out|e] s2]; cbn [fst] in *.
    + cbv beta zeta. destruct (negb _).
      * intros _. now exists id.
      * destruct (JSON_parse rt (trim (stdout out))) as [doc|e] eqn:E;
          cbn [fst]; [discriminate|].
        right. right. split; [reflexivity|]. now exists (trim (stdout out)).
    + right. now left.
  - unfold downloadBody, bind, lift.
    destruct (downloadPlan args) as [plan|e]; [|now left].
    pose proof (runIa_resolved_outcome rt w (snd plan) DOWNLOAD_TIMEOUT_MS
                  s r H) as Hrun.
    destruct (runIa rt w _ _ s) as [[out|e] s2]; cbn [fst] in *.
    + cbv beta zeta. destruct (negb _); discriminate.
    + right. now left.
  - unfold listBody, bind, lift.
    destruct (validateIdentifier (l_identifier args)) as [id|e]; [|now left].
    pose proof (runIa_resolved_outcome rt w
                  [lit "list"; id; lit "--all"; lit "--verbose"]
                  DEFAULT_TIMEOUT_MS s r H) as Hrun.
    destruct (runIa rt w _ _ s) as [[out|e] s2]; cbn [fst] in *.
    + cbv beta zeta. destruct (negb _); [|discriminate].
      intros _. now exists id.
    + right. now left.
Qed.

Lemma callTool_handler (rt : runtime) (w : world) (req : request) :
  callTool rt w req
  = handler rt w (failureLabel (operationOf req)) (toolBody rt w req).
Proof. destruct req; reflexivity. Qed.

(** C2, refuted as stated. When the CLI is missing, a search fails with the
    installation guidance, which names no operation; and the not-found
    error of a list names the item, not the operation. *)
Lemma failure_text_without_operation :
  fst (callTool sampleRuntime noCliWorld
         (ia_search {| query := lit "cats"; fields := None; rows := None;
                       page := None |}) initial)
  = Ok (failure UNAVAILABLE_MESSAGE)
  /\ mentionsOperation OpSearch UNAVAILABLE_MESSAGE = false
  /\ fst (callTool sampleRuntime
            (posixWorld (Ok {| stdout := []; ia_stderr := [] |}))
            (ia_list {| l_identifier := lit "item1" |}) initial)
     = Ok (failure (lit "No files found for " ++ dq ++ lit "item1" ++ dq
                    ++ lit ". The item may not exist."))
  /\ mentionsOperation OpList
       (lit "No files found for " ++ dq ++ lit "item1" ++ dq
        ++ lit ". The item may not exist.") = false.
Proof. repeat split; reflexivity. Qed.

(** C2, amended. Each of the four handlers returns a result and never
    throws. An Unavailable failure gives an error result whose text is the
    installation guidance alone. Any failure of the steps after the precheck
    (a validation error, the Timeout or Execution error of the invoker, the
    parse error of a metadata document) gives an error result whose text is
    the failure label of the operation, a colon, and the message of the
    cause, and so names the operation and the cause. The only other error
    results are the not-found results of metadata and list. *)
Theorem callTool_reports_failures (rt : runtime) (w : world) (req : request)
    (s : state) :
  let op := operationOf req in
  exists res s',
    callTool rt w req s = (Ok res, s')
    /\ match checkIaAvailable rt w s with
       | (Throw _, s1) => res = failure UNAVAILABLE_MESSAGE /\ s' = s1
       | (Ok _, s1) =>
           match toolBody rt w req s1 with
           | (Throw e, s2) =>
               (validationError rt req = Some e
                \/ invokerError rt e
                \/ (op = OpMetadata /\ exists text, JSON_parse rt text = Throw e))
               /\ res = failure (failureLabel op ++ lit ": " ++ message e)
               /\ mentionsOperation op (resultText res) = true
               /\ includes (resultText res) (message e) = true
               /\ s' = s2
           | (Ok r, s2) =>
               res = r /\ s' = s2 /\ (isError r = true -> notFound req r)
           end
       end.
Proof.
  intro op. rewrite callTool_handler, handler_run. fold op.
  destruct (checkIaAvailable rt w s) as [[v|e] s1] eqn:Hcheck.
  - destruct (checkIaAvailable_resolved rt w s s1 v Hcheck) as [r Hr].
    pose proof (toolBody_outcome rt w req s1 r Hr) as Hbody.
    destruct (toolBody rt w req s1) as [[res|e] s2]; cbn [fst] in Hbody.
    + exists res, s2. auto.
    + eexists. exists s2. split; [reflexivity|].
      split; [exact Hbody|]. split; [reflexivity|]. split.
      * apply failureLabel_mentions.
      * split; [|reflexivity]. cbn [resultText content failure].
        rewrite app_assoc. apply includes_suffix.
  - apply checkIaAvailable_throws in Hcheck. subst e.
    exists (failure UNAVAILABLE_MESSAGE), s1. auto.
Qed.

(* ================================================================== *)
(** * Part III: more of the code                                       *)
(* ================================================================== *)

(** ** Trimming *)

Lemma trimStart_fixed (c : N) (s : jsstring) :
  isWhiteSpace c = false -> trimStart (c :: s) = c :: s.
Proof. intro H. simpl. now rewrite H. Qed.

Lemma trimStart_snoc (l : jsstring) (c : N) :
  isWhiteSpace c = false -> trimStart (l ++ [c]) = trimStart l ++ [c].
Proof.
  intro H. induction l as [|a l IH]; simpl.
  - now rewrite H.
  - destruct (isWhiteSpace a); [exact IH | reflexivity].
Qed.

Lemma trimEnd_cons (c : N) (s : jsstring) :
  isWhiteSpace c = false -> trimEnd (c :: s) = c :: trimEnd s.
Proof.
  intro H. unfold trimEnd. cbn [rev].
  rewrite (trimStart_snoc (rev s) c H), rev_app_distr. reflexivity.
Qed.

Lemma trimStart_idempotent (s : jsstring) :
  trimStart (trimStart s) = trimStart s.
Proof.
  destruct (trimStart s) as [|c t] eqn:E; [reflexivity|].
  apply trimStart_head in E. now apply trimStart_fixed.
Qed.

Lemma trimEnd_idempotent (s : jsstring) : trimEnd (trimEnd s) = trimEnd s.
Proof.
  unfold trimEnd. now rewrite rev_involutive, trimStart_idempotent.
Qed.

(** A trimmed text is empty or starts with a character that is not white
    space, and trimming it again changes nothing. *)
Lemma trim_idempotent (s : jsstring) : trim (trim s) = trim s.
Proof.
  unfold trim. destruct (trimStart s) as [|c t] eqn:E; [reflexivity|].
  apply trimStart_head in E.
  rewrite (trimEnd_cons c t E), (trimStart_fixed c (trimEnd t) E).
  now rewrite (trimEnd_cons c (trimEnd t) E), trimEnd_idempotent.
Qed.

(** ** The other validators *)

(** [/^[a][b]*$/.test(s)] *)
Lemma test_class_star (a b : charclass) (s : jsstring) :
  test (Cat (Class a) (Star (Class b))) s
  = match s with
    | [] => false
    | c :: rest => in_class a c && forallb (in_class b) rest
    end.
Proof.
  apply eq_true_iff_eq. rewrite test_lang. split.
  - intro H. inv H.
    match goal with L : lang (Class _) _ |- _ => inv L end.
    cbn [app]. apply andb_true_intro. split; [assumption|].
    now apply lang_star_class.
  - destruct s as [|c rest]; [discriminate|]. intro H.
    apply andb_prop in H as [Hc Hrest].
    change (c :: rest) with ([c] ++ rest).
    constructor; [now constructor | now apply lang_star_class].
Qed.

Lemma globClass_spec (c : N) : in_class globClass c = true <-> isGlobChar c.
Proof.
  unfold isGlobChar. cbn.
  rewrite !orb_true_iff, !andb_true_iff, !N.leb_le. lia.
Qed.

Lemma fieldStart_spec (c : N) :
  in_class [range "a" "z"; range "A" "Z"; single "_"] c = true
  <-> isFieldStart c.
Proof.
  unfold isFieldStart. cbn.
  rewrite !orb_true_iff, !andb_true_iff, !N.leb_le. lia.
Qed.

Lemma fieldChar_spec (c : N) :
  in_class (letters_digits ++ [single "_"]) c = true <-> isFieldChar c.
Proof.
  unfold isFieldChar. cbn.
  rewrite !orb_true_iff, !andb_true_iff, !N.leb_le. lia.
Qed.

Lemma validateFieldName_Ok_iff (field v : jsstring) :
  validateFieldName field = Ok v <->
  v = trim field
  /\ exists c rest, v = c :: rest /\ isFieldStart c /\ Forall isFieldChar rest.
Proof.
  unfold validateFieldName, fieldNameRegex.
  rewrite test_class_star.
  destruct (trim field) as [|c rest] eqn:E; cbn [negb].
  - split; [discriminate|]. intros (-> & c & rest & H & _). discriminate.
  - destruct (in_class _ c) eqn:Hc; cbn [andb negb].
    + destruct (forallb _ rest) eqn:Hr; cbn [negb].
      * split.
        -- intros [= <-]. split; [reflexivity|]. exists c, rest.
           split; [reflexivity|]. split; [now apply fieldStart_spec|].
           apply Forall_forall. intros x Hx. apply fieldChar_spec.
           rewrite forallb_forall in Hr. now apply Hr.
        -- now intros (-> & _).
      * split; [discriminate|].
        intros (-> & c' & rest' & [= <- <-] & _ & Hall).
        assert (forallb (in_class (letters_digits ++ [single "_"])) rest
                = true); [|congruence].
        apply forallb_forall. intros x Hx. apply fieldChar_spec.
        rewrite Forall_forall in Hall. now apply Hall.
    + split; [discriminate|].
      intros (-> & c' & rest' & [= <- <-] & Hs & _).
      apply fieldStart_spec in Hs. congruence.
Qed.

(** X1. A field name is accepted exactly when, trimmed, it is a letter or
    an underscore followed by letters, digits and underscores; the trimmed
    name is returned, and every other name is rejected with an error that
    quotes it. So [valid_field1] passes, and [1invalid], [invalid-field] and
    the empty name do not. *)
Theorem validateFieldName_spec (field : jsstring) :
  (forall v, validateFieldName field = Ok v <->
     v = trim field
     /\ exists c rest, v = c :: rest /\ isFieldStart c
                       /\ Forall isFieldChar rest)
  /\ (validateFieldName field = Ok (trim field)
      \/ validateFieldName field
         = Throw (newError
             (lit "Invalid field name " ++ dq ++ trim field ++ dq
              ++ lit ". Must be alphanumeric with underscores.")))
  /\ validateFieldName " valid_field1 " = Ok (lit "valid_field1")
  /\ (forall bad, In bad [lit "1invalid"; lit "invalid-field"; lit ""; lit "a b"] ->
      exists msg, validateFieldName bad = Throw (newError msg)).
Proof.
  split; [|split; [|split]].
  - intro v. apply validateFieldName_Ok_iff.
  - unfold validateFieldName. destruct (negb _); auto.
  - reflexivity.
  - intros bad Hin. cbn [In] in Hin.
    destruct Hin as [<-|[<-|[<-|[<-|[]]]]]; eexists; reflexivity.
Qed.

(** X2. A glob pattern is accepted exactly when, trimmed, it is not empty,
    at most 200 code units long and made of letters, digits and
    [. * ? [ ] _ - / { } |] only; the trimmed pattern is returned. The pipe is
    among the accepted characters, and white space, quotes, [&], [<], [>],
    [^] and [%] are not. *)
Theorem validateGlob_spec (pattern v : jsstring) :
  (validateGlob pattern = Ok v <->
   v = trim pattern /\ v <> [] /\ (List.length v <= 200)%nat
   /\ Forall isGlobChar v)
  /\ (validateGlob pattern = Ok v ->
      Forall (fun c => isWhiteSpace c = false /\ c <> 34%N /\ c <> 39%N
                       /\ c <> 38%N /\ c <> 60%N /\ c <> 62%N /\ c <> 94%N
                       /\ c <> 37%N) v)
  /\ isGlobChar 124.
Proof.
  assert (Hiff : validateGlob pattern = Ok v <->
                 v = trim pattern /\ v <> [] /\ (List.length v <= 200)%nat
                 /\ Forall isGlobChar v).
  { unfold validateGlob. rewrite test_plus_class.
    destruct (JsString.truthy (trim pattern)) eqn:Ht; simpl.
    - apply truthy_nonempty in Ht.
      destruct (Nat.ltb_spec 200 (List.length (trim pattern))) as [Hl|Hl].
      + split; [discriminate | intros (-> & _ & Hlen & _); lia].
      + destruct (forallb _ _) eqn:Hc; simpl.
        * split; [intros [= <-] | now intros (-> & _)].
          repeat split; auto. apply Forall_forall. intros x Hx.
          apply globClass_spec. rewrite forallb_forall in Hc. now apply Hc.
        * split; [discriminate | intros (-> & _ & _ & Hall)].
          assert (forallb (in_class globClass) (trim pattern) = true);
            [|congruence].
          apply forallb_forall. intros x Hx. apply globClass_spec.
          rewrite Forall_forall in Hall. now apply Hall.
    - split; [discriminate | intros (-> & Hne & _)].
      apply truthy_nonempty in Hne. congruence. }
  split; [exact Hiff|]. split.
  - intro H. apply Hiff in H as (_ & _ & _ & Hall).
    eapply Forall_impl; [|exact Hall]. intros c Hc. unfold isGlobChar in Hc.
    assert (Hw : isWhiteSpace c = false).
    { assert (Hr : (42 <= c <= 125)%N) by lia. unfold isWhiteSpace.
      repeat match goal with
             | |- context [(?a =? ?b)%N] =>
                 rewrite (proj2 (N.eqb_neq a b)) by lia
             end.
      rewrite (proj2 (N.leb_gt c 13)), (proj2 (N.leb_gt 8192 c)) by lia.
      now rewrite !andb_false_r. }
    repeat split; try exact Hw; lia.
  - unfold isGlobChar. lia.
Qed.

Lemma validateGlob_spec_witness :
  validateGlob " *|calc " = Ok (lit "*|calc").
Proof.
  apply (proj2 (proj1 (validateGlob_spec " *|calc " (lit "*|calc")))).
  split; [reflexivity|]. split; [discriminate|]. split; [vm_compute; lia|].
  apply Forall_forall. intros x Hx. apply globClass_spec.
  revert x Hx. apply forallb_forall. reflexivity.
Defined.

(** What the five validators of strings with a length limit, and the
    validator of field names, return when they return. *)
Lemma validators_return_trimmed (x v : jsstring) :
  validateIdentifier x = Ok v \/ validateQuery x = Ok v
  \/ validateGlob x = Ok v \/ validateDestdir x = Ok v
  \/ validateFormat x = Ok v \/ validateFieldName x = Ok v ->
  v = trim x.
Proof.
  unfold validateIdentifier, validateQuery, validateGlob, validateDestdir,
    validateFormat, validateFieldName.
  intros [H|[H|[H|[H|[H|H]]]]]; revert H; cbv zeta;
    repeat match goal with
           | |- context [if ?b then _ else _] => destruct b
           end; congruence.
Qed.

(** X3. Validation normalises: the value a string validator returns has
    no white space at either end, and validating it again returns it
    unchanged. *)
Theorem validators_idempotent (x v : jsstring) :
  (validateIdentifier x = Ok v -> trim v = v /\ validateIdentifier v = Ok v)
  /\ (validateQuery x = Ok v -> trim v = v /\ validateQuery v = Ok v)
  /\ (validateGlob x = Ok v -> trim v = v /\ validateGlob v = Ok v)
  /\ (validateDestdir x = Ok v -> trim v = v /\ validateDestdir v = Ok v)
  /\ (validateFormat x = Ok v -> trim v = v /\ validateFormat v = Ok v)
  /\ (validateFieldName x = Ok v -> trim v = v /\ validateFieldName v = Ok v).
Proof.
  split; [|split; [|split; [|split; [|split]]]]; intro H;
    (assert (E : v = trim x) by (apply validators_return_trimmed; tauto));
    (split; [rewrite E; apply trim_idempotent|]);
    rewrite <- H, E;
    unfold validateIdentifier, validateQuery, validateGlob, validateDestdir,
      validateFormat, validateFieldName;
    now rewrite trim_idempotent.
Qed.

Lemma validators_idempotent_witness :
  validateQuery (lit "title:Apollo") = Ok (lit "title:Apollo").
Proof.
  apply (proj1 (proj2 (validators_idempotent " title:Apollo  "
                         (lit "title:Apollo")))).
  reflexivity.
Defined.

(** ** Page numbers *)

Local Open Scope Z_scope.

Lemma toInteger_finite (s : bool) (m : positive) (e n : Z) :
  toInteger (S754_finite s m e) = Some n <->
  (0 <= e /\ n = (if s then -1 else 1) * (Z.pos m * 2 ^ e))
  \/ (e < 0 /\ Z.pos m mod 2 ^ (- e) = 0
      /\ n = (if s then -1 else 1) * (Z.pos m / 2 ^ (- e))).
Proof.
  unfold toInteger.
  destruct (Z.leb_spec 0 e) as [He|He].
  - split; [intros [= <-]; left; auto|].
    intros [[_ ->]|[H _]]; [reflexivity | lia].
  - destruct (Z.eqb_spec (Z.pos m mod 2 ^ (- e)) 0) as [Hm|Hm].
    + split; [intros [= <-]; right; auto|].
      intros [[H _]|(_ & _ & ->)]; [lia | reflexivity].
    + split; [discriminate|]. intros [[H _]|(_ & H & _)]; [lia | congruence].
Qed.

(** [page < 1] on a finite double. *)
Lemma lt_one_finite (s : bool) (m : positive) (e : Z) :
  lt (S754_finite s m e) (ofZ 1) = true <->
  s = true \/ e < -52 \/ (e = -52 /\ Z.pos m < 2 ^ 52).
Proof.
  change (ofZ 1) with (S754_finite false 4503599627370496 (-52)).
  replace (2 ^ 52) with 4503599627370496 by reflexivity.
  unfold lt. destruct s.
  - split; [auto | reflexivity].
  - rewrite SFltb_pos. split; [auto|]. intros [H|H]; [discriminate | exact H].
Qed.

(** X4. Page validation accepts exactly the doubles whose value is an
    integer of at least 1, however large, and returns them unchanged; every
    other number (0, negatives, fractions, NaN, the infinities) is rejected
    with the page error. *)
Theorem validatePage_spec (page : number) :
  wf page = true ->
  (validatePage page = Ok page <->
   exists n, 1 <= n /\ toInteger page = Some n)
  /\ (forall v, validatePage page = Ok v -> v = page)
  /\ (validatePage page = Ok page
      \/ validatePage page
         = Throw (newError "page must be a positive integer")).
Proof.
  intro Hwf. split; [|split].
  - unfold validatePage.
    destruct page as [s|s| |s m e].
    + split; [discriminate | intros (n & Hn & [= <-]); lia].
    + split; [discriminate | intros (n & _ & H); discriminate].
    + split; [discriminate | intros (n & _ & H); discriminate].
    + apply wf_finite in Hwf as (He & Hm53 & Hm52).
      pose proof (lt_one_finite s m e) as Hlt.
      assert (Hint : isInteger (S754_finite s m e) = true <->
                     0 <= e \/ Z.pos m mod 2 ^ (- e) = 0).
      { cbn [isInteger]. destruct (Z.leb_spec 0 e).
        - split; auto.
        - rewrite Z.eqb_eq. split; [auto | intros [H'|H']; [lia | exact H']]. }
      assert (Hm : 0 < Z.pos m) by lia.
      split.
      * intro H.
        destruct (isInteger _) eqn:Ei; [|discriminate].
        destruct (lt _ _) eqn:El; [discriminate|]. clear H.
        assert (Hno : ~ (s = true \/ e < -52 \/ e = -52 /\ Z.pos m < 2 ^ 52))
          by (intro Hc; apply Hlt in Hc; discriminate).
        assert (Hs : s = false) by (destruct s; tauto).
        assert (Hnl : ~ (e < -52 \/ e = -52 /\ Z.pos m < 2 ^ 52)) by tauto.
        subst s. destruct (proj1 Hint eq_refl) as [He0|Hmod].
        -- exists (Z.pos m * 2 ^ e). split.
           ++ assert (0 < 2 ^ e) by (apply Z.pow_pos_nonneg; lia).
              remember (2 ^ e) as q. nia.
           ++ apply toInteger_finite. left. split; [exact He0 | lia].
        -- destruct (Z.leb_spec 0 e) as [He0|He0].
           ++ exists (Z.pos m * 2 ^ e). split.
              ** assert (0 < 2 ^ e) by (apply Z.pow_pos_nonneg; lia).
                 remember (2 ^ e) as q. nia.
              ** apply toInteger_finite. left. split; [exact He0 | lia].
           ++ exists (Z.pos m / 2 ^ (- e)). split.
              ** specialize (Hm52 ltac:(lia)).
                 assert (Hsmall : 2 ^ (- e) <= 2 ^ 52)
                   by (apply Z.pow_le_mono_r; lia).
                 assert (Hpk : 0 < 2 ^ (- e))
                   by (apply Z.pow_pos_nonneg; lia).
                 apply Z.div_le_lower_bound; [exact Hpk|].
                 remember (2 ^ (- e)) as q. remember (2 ^ 52) as c. lia.
              ** apply toInteger_finite. right.
                 split; [exact He0|]. split; [exact Hmod | lia].
      * intros (n & Hn & H). apply toInteger_finite in H.
        assert (Hs : s = false).
        { destruct s; [exfalso | reflexivity].
          destruct H as [[He0 ->]|(He0 & _ & ->)].
          - assert (0 < 2 ^ e) by (apply Z.pow_pos_nonneg; lia).
            remember (2 ^ e) as q. nia.
          - assert (0 < 2 ^ (- e)) by (apply Z.pow_pos_nonneg; lia).
            assert (0 <= Z.pos m / 2 ^ (- e)) by (apply Z.div_pos; lia).
            remember (Z.pos m / 2 ^ (- e)) as q. lia. }
        subst s.
        assert (Ei : isInteger (S754_finite false m e) = true).
        { apply Hint. destruct H as [[He0 _]|(_ & Hmod & _)]; auto. }
        assert (El : lt (S754_finite false m e) (ofZ 1) = false).
        { destruct (lt _ _) eqn:El; [|reflexivity].
          clear El. destruct (proj1 Hlt eq_refl) as [El|El]; [discriminate|].
          exfalso. destruct H as [[He0 _]|(He0 & Hmod & ->)]; [lia|].
          assert (Hbig : 2 ^ 52 <= 2 ^ (- e))
            by (apply Z.pow_le_mono_r; lia).
          assert (Hz : Z.pos m / 2 ^ (- e) = 0 \/ e = -52).
          { destruct El as [El|[El _]]; [left | now right].
            apply Z.div_small. split; [lia|].
            assert (2 ^ 53 <= 2 ^ (- e)) by (apply Z.pow_le_mono_r; lia).
            remember (2 ^ (- e)) as q. remember (2 ^ 53) as c. lia. }
          destruct Hz as [Hz|Hz]; [rewrite Hz in Hn; lia|].
          destruct El as [El|[_ El]]; [lia|]. subst e.
          change (- -52) with 52 in *.
          assert (Z.pos m / 2 ^ 52 = 0) by (apply Z.div_small; lia).
          lia. }
        now rewrite Ei, El.
  - intros v. unfold validatePage. destruct (_ || _); congruence.
  - unfold validatePage. destruct (_ || _); auto.
Qed.

Lemma validatePage_spec_witness :
  validatePage (ofZ 7) = Ok (ofZ 7)
  /\ validatePage three_and_a_half <> Ok three_and_a_half.
Proof.
  split.
  - apply (proj1 (validatePage_spec (ofZ 7) eq_refl)).
    exists 7. split; [lia | reflexivity].
  - intro H. apply (proj1 (validatePage_spec three_and_a_half eq_refl)) in H.
    destruct H as (n & _ & H). discriminate H.
Defined.

Local Close Scope Z_scope.

(** ** What a tool call asks of the host *)

Lemma checkIaAvailable_run (rt : runtime) (w : world) (s s0 : state)
    (r : Resolved) :
  resolveIaExecutable rt w s = (Ok r, s0) ->
  checkIaAvailable rt w s
  = (match w_execFile w (trace s0) (command r) [lit "--version"]
             (probeOptions r) with
     | Ok out => Ok (trim (stdout out))
     | Throw _ => Throw (newError UNAVAILABLE_MESSAGE)
     end,
     {| resolvedIa := resolvedIa s0;
        trace := trace s0
                 ++ [EvExecFile (command r) [lit "--version"]
                       (probeOptions r)] |}).
Proof.
  intro H. unfold checkIaAvailable, try_catch, bind. rewrite H.
  unfold execFileAsync, ask, probeOptions, ret, throw.
  destruct (w_execFile _ _ _ _ _); reflexivity.
Qed.

Lemma toolBody_state (rt : runtime) (w : world) (req : request) (s : state)
    (r : Resolved) :
  resolvedIa s = Some r ->
  snd (toolBody rt w req s)
  = match toolCommand rt req with
    | Ok (iaArgs, timeoutMs) =>
        {| resolvedIa := Some r;
           trace := trace s
                    ++ [EvExecFile (command r) iaArgs (runOptions r timeoutMs)] |}
    | Throw _ => s
    end.
Proof.
  intro H.
  destruct req as [args|args|args|args]; cbn [toolBody toolCommand];
    unfold searchBody, metadataBody, downloadBody, listBody, bind, lift.
  - destruct (searchPlan rt args) as [plan|e]; [|reflexivity].
    rewrite <- (runIa_spawn rt w (sp_args plan) DEFAULT_TIMEOUT_MS s r H).
    destruct (runIa rt w _ _ s) as [[out|e] s2]; reflexivity.
  - destruct (validateIdentifier _) as [id|e]; [|reflexivity].
    rewrite <- (runIa_spawn rt w [lit "metadata"; id] DEFAULT_TIMEOUT_MS s r H).
    destruct (runIa rt w _ _ s) as [[out|e] s2]; [|reflexivity].
    cbv beta zeta. destruct (negb _); [reflexivity|].
    destruct (JSON_parse rt _); reflexivity.
  - destruct (downloadPlan args) as [plan|e]; [|reflexivity].
    rewrite <- (runIa_spawn rt w (snd plan) DOWNLOAD_TIMEOUT_MS s r H).
    destruct (runIa rt w _ _ s) as [[out|e] s2]; [|reflexivity].
    cbv beta zeta. destruct (negb _); reflexivity.
  - destruct (validateIdentifier _) as [id|e]; [|reflexivity].
    rewrite <- (runIa_spawn rt w [lit "list"; id; lit "--all"; lit "--verbose"]
                  DEFAULT_TIMEOUT_MS s r H).
    destruct (runIa rt w _ _ s) as [[out|e] s2]; [|reflexivity].
    cbv beta zeta. destruct (negb _); reflexivity.
Qed.

(** X5. What a tool call does on the host, once the executable resolves:
    it runs the version probe, and then, only when the probe answered and
    the arguments validated, the one command of the tool, with the
    10-minute timeout for a download and the 2-minute timeout otherwise.
    A failed probe or a validation error runs nothing more; nothing is ever
    run twice, and the file system is not touched. *)
Theorem callTool_host_interaction (rt : runtime) (w : world) (req : request)
    (s s0 : state) (r : Resolved) :
  resolveIaExecutable rt w s = (Ok r, s0) ->
  let probe := EvExecFile (command r) [lit "--version"] (probeOptions r) in
  let answered :=
    match w_execFile w (trace s0) (command r) [lit "--version"]
            (probeOptions r) with
    | Ok _ => true
    | Throw _ => false
    end in
  trace (snd (callTool rt w req s))
  = trace s0 ++ probe
    :: match toolCommand rt req with
       | Ok (iaArgs, timeoutMs) =>
           if answered
           then [EvExecFile (command r) iaArgs (runOptions r timeoutMs)]
           else []
       | Throw _ => []
       end
  /\ resolvedIa (snd (callTool rt w req s)) = Some r
  /\ (forall iaArgs timeoutMs,
        toolCommand rt req = Ok (iaArgs, timeoutMs) ->
        timeoutMs = match req with
                    | ia_download _ => ofZ 600000
                    | _ => ofZ 120000
                    end).
Proof.
  intros Hres probe answered.
  pose proof (resolve_stores rt w s r s0 Hres) as Hc.
  pose proof (checkIaAvailable_run rt w s s0 r Hres) as Hcheck.
  rewrite callTool_handler, handler_run, Hcheck.
  subst answered probe.
  set (s1 := {| resolvedIa := resolvedIa s0; trace := _ |}).
  assert (Hc1 : resolvedIa s1 = Some r) by exact Hc.
  pose proof (toolBody_state rt w req s1 r Hc1) as Hbody.
  split; [|split].
  - destruct (w_execFile _ _ _ _ _) as [out|e].
    + destruct (toolBody rt w req s1) as [[res|e] s2]; cbn [snd] in *;
        subst s2; destruct (toolCommand rt req) as [[iaArgs t]|e'];
        cbn [trace]; unfold s1; cbn [trace];
        rewrite <- ?app_assoc; reflexivity.
    + cbn [snd trace]. destruct (toolCommand rt req) as [[iaArgs t]|e'];
        reflexivity.
  - destruct (w_execFile _ _ _ _ _) as [out|e]; [|exact Hc].
    destruct (toolBody rt w req s1) as [[res|e] s2]; cbn [snd] in *;
      subst s2; destruct (toolCommand rt req) as [[iaArgs t]|e'];
      auto.
  - intros iaArgs t. destruct req as [args|args|args|args];
      cbn [toolCommand].
    + destruct (searchPlan rt args); [intros [= _ <-]|]; easy.
    + destruct (validateIdentifier _); [intros [= _ <-]|]; easy.
    + destruct (downloadPlan args); [intros [= _ <-]|]; easy.
    + destruct (validateIdentifier _); [intros [= _ <-]|]; easy.
Qed.

Lemma callTool_host_interaction_witness :
  let w := posixWorld (Ok {| stdout := lit "ok"; ia_stderr := [] |}) in
  List.length
    (trace (snd (callTool sampleRuntime w
                   (ia_list {| l_identifier := lit "bad id" |}) initial))) = 1%nat
  /\ List.length
       (trace (snd (callTool sampleRuntime w
                      (ia_list {| l_identifier := lit "item1" |}) initial)))
     = 2%nat.
Proof.
  intro w. split.
  - rewrite (proj1 (callTool_host_interaction sampleRuntime w
                      (ia_list {| l_identifier := lit "bad id" |}) initial
                      (snd (resolveIaExecutable sampleRuntime w initial))
                      (direct "ia") eq_refl)).
    reflexivity.
  - rewrite (proj1 (callTool_host_interaction sampleRuntime w
                      (ia_list {| l_identifier := lit "item1" |}) initial
                      (snd (resolveIaExecutable sampleRuntime w initial))
                      (direct "ia") eq_refl)).
    reflexivity.
Defined.

(** ** The argument vector of a search *)

Lemma pushFields_Ok (fs acc v : list jsstring) :
  pushFields acc fs = Ok v <->
  Forall (fun f => validateFieldName f = Ok (trim f)) fs
  /\ v = acc ++ fieldFlags fs.
Proof.
  revert acc. induction fs as [|f fs IH]; intro acc; cbn [pushFields].
  - unfold fieldFlags. cbn [flat_map]. rewrite app_nil_r.
    split; [intros [= <-]; auto | intros [_ ->]; reflexivity].
  - destruct (validateFieldName f) as [x|e] eqn:E.
    + assert (Ex : x = trim f)
        by (apply (validators_return_trimmed f x); tauto).
      subst x. rewrite IH. unfold fieldFlags. cbn [flat_map].
      rewrite <- !app_assoc. cbn [app].
      split; intros [Hall Hv]; (split; [|exact Hv]).
      * constructor; assumption.
      * now inversion Hall.
    + split; [discriminate|]. intros [Hall _]. inversion Hall; congruence.
Qed.

(** A field that does not validate fails the whole list, with the error of
    the first such field. *)
Lemma pushFields_Throw (fs good bad_tail acc : list jsstring) (bad : jsstring)
    (e : exn) :
  fs = good ++ bad :: bad_tail ->
  Forall (fun f => validateFieldName f = Ok (trim f)) good ->
  validateFieldName bad = Throw e ->
  pushFields acc fs = Throw e.
Proof.
  intros -> Hgood Hbad. revert acc.
  induction Hgood as [|f good Hf _ IH]; intro acc; cbn [app pushFields].
  - now rewrite Hbad.
  - rewrite Hf. apply IH.
Qed.

(** X6. The argument vector of a search that validates is the subcommand,
    the trimmed query, [--parameters] with the page and the rows, and then
    one [--field] flag with its trimmed name for each requested field, in
    the order they were requested; the page and the rows of the vector are
    values their validators accept (the defaults 1 and 50 included). A
    single field that does not validate fails the search with the error of
    the first such field. *)
Theorem searchPlan_args (rt : runtime) (args : SearchArgs) :
  (forall plan,
     searchPlan rt args = Ok plan ->
     sp_args plan
     = [ lit "search"; trim (query args); lit "--parameters";
         lit "page=" ++ numberToString rt (sp_page plan)
         ++ lit "&rows=" ++ numberToString rt (sp_rows plan) ]
       ++ fieldFlags (fieldsOf args)
     /\ List.length (sp_args plan) = 4 + 2 * List.length (fieldsOf args)
     /\ validatePage (sp_page plan) = Ok (sp_page plan)
     /\ validateRows (sp_rows plan) = Ok (sp_rows plan)
     /\ Forall (fun f => validateFieldName f = Ok (trim f)) (fieldsOf args))
  /\ (forall good bad bad_tail e,
        fieldsOf args = good ++ bad :: bad_tail ->
        Forall (fun f => validateFieldName f = Ok (trim f)) good ->
        validateFieldName bad = Throw e ->
        exists e', searchPlan rt args = Throw e'
                   /\ (validationError rt (ia_search args) = Some e')).
Proof.
  split.
  - intro plan. unfold searchPlan.
    destruct (validateQuery (query args)) as [q|e] eqn:Eq; [|discriminate].
    assert (Hq : q = trim (query args))
      by (apply (validators_return_trimmed (query args) q); tauto).
    subst q.
    destruct (match given Number.truthy (rows args) with
              | Some r => validateRows r | None => Ok (ofZ 50) end)
      as [r|e] eqn:Er; [|discriminate].
    destruct (match given Number.truthy (page args) with
              | Some p => validatePage p | None => Ok (ofZ 1) end)
      as [p|e] eqn:Ep; [|discriminate].
    assert (Hr : validateRows r = Ok r).
    { destruct (given Number.truthy (rows args)) as [r0|].
      - assert (r0 = r)
          by (unfold validateRows in Er; destruct (_ || _) in Er; congruence).
        now subst r0.
      - injection Er as <-. reflexivity. }
    assert (Hp : validatePage p = Ok p).
    { destruct (given Number.truthy (page args)) as [p0|].
      - assert (p0 = p)
          by (unfold validatePage in Ep; destruct (_ || _) in Ep; congruence).
        now subst p0.
      - injection Ep as <-. reflexivity. }
    set (base := [lit "search"; trim (query args); lit "--parameters";
                  lit "page=" ++ numberToString rt p
                  ++ lit "&rows=" ++ numberToString rt r]).
    assert (Hpush : forall v,
              match fields args with
              | Some ((_ :: _) as fs) => pushFields base fs
              | _ => Ok base
              end = Ok v ->
              v = base ++ fieldFlags (fieldsOf args)
              /\ Forall (fun f => validateFieldName f = Ok (trim f))
                   (fieldsOf args)).
    { intro v. unfold fieldsOf. destruct (fields args) as [[|f fs]|].
      - intros [= <-]. now rewrite app_nil_r.
      - intro H. apply pushFields_Ok in H. destruct H as [Hall ->]. auto.
      - intros [= <-]. now rewrite app_nil_r. }
    destruct (match fields args with
              | Some ((_ :: _) as fs) => pushFields base fs
              | _ => Ok base end) as [v|e] eqn:Ev; [|discriminate].
    destruct (Hpush v eq_refl) as [-> Hall].
    intros [= <-]. cbn [sp_args sp_page sp_rows].
    split; [reflexivity|]. split; [|auto].
    assert (L : forall l : list jsstring,
              List.length (fieldFlags l) = 2 * List.length l)
      by (unfold fieldFlags; induction l;
          cbn [flat_map app List.length]; lia).
    subst base. cbn [app List.length]. rewrite L. lia.
  - intros good bad bad_tail e Hfs Hgood Hbad.
    assert (Hex : exists e', searchPlan rt args = Throw e').
    { unfold searchPlan.
      destruct (validateQuery (query args)); [|eauto].
      destruct (match given Number.truthy (rows args) with
                | Some r => validateRows r | None => Ok (ofZ 50) end);
        [|eauto].
      destruct (match given Number.truthy (page args) with
                | Some p => validatePage p | None => Ok (ofZ 1) end);
        [|eauto].
      unfold fieldsOf in Hfs. destruct (fields args) as [[|f fs]|].
      - destruct good; discriminate.
      - rewrite (pushFields_Throw (f :: fs) good bad_tail _ bad e
                   Hfs Hgood Hbad). eauto.
      - destruct good; discriminate. }
    destruct Hex as [e' He']. exists e'. split; [exact He'|].
    cbn [validationError]. now rewrite He'.
Qed.

Lemma searchPlan_args_witness :
  let args := {| query := lit " cats ";
                 fields := Some [lit "identifier"; lit " title"];
                 rows := Some (ofZ 2); page := None |} in
  exists plan,
    searchPlan sampleRuntime args = Ok plan
    /\ sp_args plan
       = [lit "search"; lit "cats"; lit "--parameters"; lit "page=1&rows=2";
          lit "--field"; lit "identifier"; lit "--field"; lit "title"].
Proof.
  intro args.
  destruct (searchPlan sampleRuntime args) as [plan|e] eqn:E;
    [|discriminate E].
  exists plan. split; [reflexivity|].
  destruct (proj1 (searchPlan_args sampleRuntime args) plan E) as [H _].
  vm_compute in E. injection E as <-. rewrite H. reflexivity.
Defined.

(** ** The paging parameter *)

Local Open Scope Z_scope.

(** A positive integer below 2^53 prints as its decimal digits. *)
Lemma toString_integer (other : number -> jsstring) (x : number) (n : Z) :
  toInteger x = Some n -> 1 <= n < 2 ^ 53 -> toString other x = decimal n.
Proof.
  intros H Hn. destruct x as [s|s| |s m e]; try discriminate.
  - injection H as <-. lia.
  - pose proof H as H'. apply toInteger_finite in H'.
    assert (Hs : s = false).
    { destruct s; [exfalso | reflexivity].
      destruct H' as [[He ->]|(He & _ & ->)].
      - assert (0 < Z.pos m * 2 ^ e)
          by (apply Z.mul_pos_pos; [lia | apply Z.pow_pos_nonneg; lia]).
        remember (Z.pos m * 2 ^ e) as q. lia.
      - assert (0 < 2 ^ (- e)) by (apply Z.pow_pos_nonneg; lia).
        assert (0 <= Z.pos m / 2 ^ (- e)) by (apply Z.div_pos; lia).
        remember (Z.pos m / 2 ^ (- e)) as q. lia. }
    subst s. unfold toString. rewrite H.
    rewrite Z.abs_eq by lia.
    destruct (Z.ltb_spec n (2 ^ 53)); [reflexivity | lia].
Qed.

Lemma toInteger_row (n : Z) : 1 <= n <= 10000 -> toInteger (ofZ n) = Some n.
Proof.
  intro Hn.
  destruct (ofZ_row n Hn) as (m & e & -> & He & Hm & _ & _).
  apply toInteger_finite. right.
  assert (Hp : 0 < 2 ^ (- e)) by (apply Z.pow_pos_nonneg; lia).
  split; [lia|]. rewrite Hm. split.
  - apply Z.mod_mul. lia.
  - rewrite Z.div_mul by lia. lia.
Qed.

(** X7. In the paging parameter of a search the rows are always the
    decimal digits of an integer between 1 and 10000, and a page below 2^53
    is the decimal digits of that page: neither is ever printed with a
    fraction or an exponent. *)
Theorem searchPlan_paging (rt : runtime) (args : SearchArgs) (plan : SearchPlan) :
  (forall r, rows args = Some r -> wf r = true) ->
  (forall p, page args = Some p -> wf p = true) ->
  searchPlan rt args = Ok plan ->
  exists n p,
    1 <= n <= 10000 /\ 1 <= p
    /\ sp_rows plan = ofZ n /\ toInteger (sp_page plan) = Some p
    /\ numberToString rt (sp_rows plan) = decimal n
    /\ (p < 2 ^ 53 ->
        nth 3 (sp_args plan) []
        = lit "page=" ++ decimal p ++ lit "&rows=" ++ decimal n).
Proof.
  intros Hwr Hwp Hplan.
  destruct (proj1 (searchPlan_args rt args) plan Hplan)
    as (Hargs & _ & Hp & Hr & _).
  assert (Hwf_r : wf (sp_rows plan) = true).
  { revert Hplan. unfold searchPlan.
    destruct (validateQuery _); [|discriminate].
    destruct (given Number.truthy (rows args)) as [r0|] eqn:Eg.
    - assert (rows args = Some r0)
        by (unfold given in Eg; destruct (rows args) as [x|];
            [destruct (Number.truthy x)|]; congruence).
      destruct (validateRows r0) as [r1|] eqn:E1; [|discriminate].
      assert (r1 = r0)
        by (unfold validateRows in E1; destruct (_ || _) in E1; congruence).
      subst r1.
      destruct (match given Number.truthy (page args) with
                | Some p => validatePage p | None => Ok (ofZ 1) end);
        [|discriminate].
      destruct (match fields args with
                | Some ((_ :: _) as fs) => pushFields _ fs
                | _ => Ok _ end); [|discriminate].
      intros [= <-]. cbn [sp_rows]. auto.
    - destruct (match given Number.truthy (page args) with
                | Some p => validatePage p | None => Ok (ofZ 1) end);
        [|discriminate].
      destruct (match fields args with
                | Some ((_ :: _) as fs) => pushFields _ fs
                | _ => Ok _ end); [|discriminate].
      intros [= <-]. reflexivity. }
  assert (Hwf_p : wf (sp_page plan) = true).
  { revert Hplan. unfold searchPlan.
    destruct (validateQuery _); [|discriminate].
    destruct (match given Number.truthy (rows args) with
              | Some r => validateRows r | None => Ok (ofZ 50) end);
      [|discriminate].
    destruct (given Number.truthy (page args)) as [p0|] eqn:Eg.
    - assert (page args = Some p0)
        by (unfold given in Eg; destruct (page args) as [x|];
            [destruct (Number.truthy x)|]; congruence).
      destruct (validatePage p0) as [p1|] eqn:E1; [|discriminate].
      assert (p1 = p0)
        by (unfold validatePage in E1; destruct (_ || _) in E1; congruence).
      subst p1.
      destruct (match fields args with
                | Some ((_ :: _) as fs) => pushFields _ fs
                | _ => Ok _ end); [|discriminate].
      intros [= <-]. cbn [sp_page]. auto.
    - destruct (match fields args with
                | Some ((_ :: _) as fs) => pushFields _ fs
                | _ => Ok _ end); [|discriminate].
      intros [= <-]. reflexivity. }
  destruct (validateRows_Ok_ofZ (sp_rows plan) (sp_rows plan) Hwf_r Hr)
    as (_ & n & Hn & En).
  destruct (proj1 (proj1 (validatePage_spec (sp_page plan) Hwf_p)) Hp)
    as (p & Hp1 & Ep).
  exists n, p.
  assert (Sn : numberToString rt (sp_rows plan) = decimal n).
  { unfold numberToString. apply toString_integer; [|split; [lia|]].
    - rewrite En. now apply toInteger_row.
    - apply Z.le_lt_trans with 10000; [lia | reflexivity]. }
  repeat split; try lia; try assumption.
  intro Hp53. rewrite Hargs. cbn [nth app]. rewrite Sn.
  unfold numberToString. now rewrite (toString_integer _ _ p Ep) by lia.
Qed.

Lemma searchPlan_paging_witness :
  let args := {| query := lit "cats"; fields := None;
                 rows := Some (ofZ 10000); page := Some (ofZ 12) |} in
  exists plan,
    searchPlan sampleRuntime args = Ok plan
    /\ nth 3 (sp_args plan) [] = lit "page=12&rows=10000".
Proof.
  intro args.
  destruct (searchPlan sampleRuntime args) as [plan|e] eqn:E;
    [|discriminate E].
  exists plan. split; [reflexivity|].
  destruct (searchPlan_paging sampleRuntime args plan)
    as (n & p & _ & _ & _ & Ep & Sn & H); [| |exact E|].
  - intros r [= <-]. reflexivity.
  - intros q [= <-]. reflexivity.
  - vm_compute in E. injection E as <-.
    vm_compute in Ep. injection Ep as <-.
    rewrite (H eq_refl), <- Sn. reflexivity.
Defined.

Local Close Scope Z_scope.

(** ** Empty outputs *)

Lemma outputLines_blank (stdout : jsstring) :
  trim stdout = [] -> outputLines stdout = [].
Proof. intro H. unfold outputLines. now rewrite H. Qed.

(** A line the handler parses is never empty and holds no line feed. *)
Lemma split_no_sep (sep : N) (s l : jsstring) :
  In l (split sep s) -> ~ In sep l.
Proof.
  revert l. induction s as [|c s IH]; intros l; cbn [split].
  - intros [<-|[]] [].
  - destruct (N.eqb_spec c sep) as [->|Hc].
    + intros [<-|H]; [intros [] | now apply IH].
    + destruct (split sep s) as [|l0 ls] eqn:E.
      * intros [<-|[]] [H|[]]. congruence.
      * intros [<-|H].
        -- intros [H|H]; [congruence|]. apply (IH l0); [now left | exact H].
        -- apply IH. now right.
Qed.

(** X8. A search whose process prints nothing, or white space only, is a
    success with no results ([total_results] 0 and an empty [results]), not
    the not-found error that metadata and list give; and in general no
    empty line and no line feed ever reaches [JSON.parse], and there are
    never more records than lines. *)
Theorem handleSearch_blank_output (rt : runtime) (w : world) (args : SearchArgs)
    (s s1 s2 : state) (v : jsstring) (plan : SearchPlan) (out : IaResult) :
  checkIaAvailable rt w s = (Ok v, s1) ->
  searchPlan rt args = Ok plan ->
  runIa rt w (sp_args plan) DEFAULT_TIMEOUT_MS s1 = (Ok out, s2) ->
  (trim (stdout out) = [] ->
   handleSearch rt w args s
   = (Ok (success
            (JSON_stringify rt
               (JObject
                  [ (lit "total_results", JNumber (ofZ 0));
                    (lit "page", JNumber (sp_page plan));
                    (lit "rows", JNumber (sp_rows plan));
                    (lit "results", JArray []) ])
               2)),
      s2))
  /\ (forall line, In line (outputLines (stdout out)) ->
        line <> [] /\ ~ In 10%N line)
  /\ (List.length (parseLines rt [] (outputLines (stdout out)))
      <= List.length (outputLines (stdout out)))%nat.
Proof.
  intros Hcheck Hplan Hrun. split; [|split].
  - intro Hblank.
    rewrite (handleSearch_run rt w args s s1 s2 v plan out Hcheck Hplan Hrun).
    now rewrite (outputLines_blank (stdout out) Hblank).
  - intros line Hin. unfold outputLines in Hin.
    apply filter_In in Hin as [Hin Hne]. split.
    + now apply truthy_nonempty.
    + now apply (split_no_sep 10 (trim (stdout out))).
  - rewrite (ParsedInOrder_length (JSON_parse rt) _ _
               (parseLines_in_order rt (outputLines (stdout out)))).
    apply filter_length_le.
Qed.

Lemma handleSearch_blank_output_witness :
  let w := posixWorld (Ok {| stdout := LF; ia_stderr := [] |}) in
  let args := {| query := lit "cats"; fields := None; rows := None;
                 page := None |} in
  fst (handleSearch sampleRuntime w args initial)
  = Ok (success
          (printJson
             (JObject
                [ (lit "total_results", JNumber (ofZ 0));
                  (lit "page", JNumber (ofZ 1));
                  (lit "rows", JNumber (ofZ 50));
                  (lit "results", JArray []) ]))).
Proof.
  intros w args.
  destruct (handleSearch_blank_output sampleRuntime w args initial
              (snd (checkIaAvailable sampleRuntime w initial))
              (snd (handleSearch sampleRuntime w args initial))
              (lit "1.6.0")
              {| sp_args := [lit "search"; lit "cats"; lit "--parameters";
                             lit "page=1&rows=50"];
                 sp_page := ofZ 1; sp_rows := ofZ 50 |}
              {| stdout := LF; ia_stderr := [] |}
              eq_refl eq_refl eq_refl) as [H _].
  rewrite (H eq_refl). reflexivity.
Defined.

(** ** list *)

(** X9. When the process of a list call succeeds, an output that is empty
    or white space only gives the error that no files were found, which
    quotes the validated identifier; any other output is returned trimmed,
    under a heading that quotes the identifier, as a success. *)
Theorem handleList_output (rt : runtime) (w : world) (args : ListArgs)
    (s s1 s2 : state) (v identifier : jsstring) (out : IaResult) :
  checkIaAvailable rt w s = (Ok v, s1) ->
  validateIdentifier (l_identifier args) = Ok identifier ->
  runIa rt w [lit "list"; identifier; lit "--all"; lit "--verbose"]
    DEFAULT_TIMEOUT_MS s1 = (Ok out, s2) ->
  (trim (stdout out) = [] ->
   handleList rt w args s
   = (Ok (failure (lit "No files found for " ++ dq ++ identifier ++ dq
                   ++ lit ". The item may not exist.")), s2))
  /\ (trim (stdout out) <> [] ->
      handleList rt w args s
      = (Ok (success (lit "Files in " ++ dq ++ identifier ++ dq ++ lit ":"
                      ++ LF ++ LF ++ trim (stdout out))), s2)
      /\ includes (lit "Files in " ++ dq ++ identifier ++ dq ++ lit ":"
                   ++ LF ++ LF ++ trim (stdout out)) (trim (stdout out))
         = true).
Proof.
  intros Hcheck Hid Hrun.
  assert (H : handleList rt w args s
              = (if negb (JsString.truthy (trim (stdout out))) then
                   Ok (failure (lit "No files found for " ++ dq ++ identifier
                                ++ dq ++ lit ". The item may not exist."))
                 else
                   Ok (success (lit "Files in " ++ dq ++ identifier ++ dq
                                ++ lit ":" ++ LF ++ LF ++ trim (stdout out))),
                 s2)).
  { unfold handleList. rewrite handler_run, Hcheck.
    unfold listBody, bind, lift. rewrite Hid, Hrun. cbv beta zeta.
    destruct (negb _); reflexivity. }
  split.
  - intro He. rewrite H. now rewrite He.
  - intro Hne. split.
    + rewrite H. apply truthy_nonempty in Hne. now rewrite Hne.
    + rewrite !app_assoc. apply includes_suffix.
Qed.

Lemma handleList_output_witness :
  let w := posixWorld (Ok {| stdout := lit "a.pdf" ++ LF; ia_stderr := [] |}) in
  fst (handleList sampleRuntime w {| l_identifier := lit " item1 " |} initial)
  = Ok (success (lit "Files in " ++ dq ++ lit "item1" ++ dq ++ lit ":"
                 ++ LF ++ LF ++ lit "a.pdf")).
Proof.
  intro w.
  destruct (handleList_output sampleRuntime w
              {| l_identifier := lit " item1 " |} initial
              (snd (checkIaAvailable sampleRuntime w initial))
              (snd (handleList sampleRuntime w
                      {| l_identifier := lit " item1 " |} initial))
              (lit "1.6.0") (lit "item1")
              {| stdout := lit "a.pdf" ++ LF; ia_stderr := [] |}
              eq_refl eq_refl eq_refl) as [_ H].
  destruct H as [H _]; [discriminate|]. rewrite H. reflexivity.
Defined.

(** ** Execution errors *)

Lemma failureCause_spec (error : exn) :
  orStr (stderr error) (orStr (Some (message error)) (errorToString error))
  = failureCause error.
Proof.
  unfold failureCause, orStr, errorToString.
  destruct (stderr error) as [[|c t]|]; cbn [JsString.truthy];
    destruct (message error) as [|c' t']; reflexivity.
Qed.

(** X10. When the child of an invocation ends without having been killed
    at the timeout (a non-zero exit, a failed spawn), [runIa] fails with an
    Execution error whose message is [ia command failed: ] followed by the
    error output of the child when there is some, else the message of the
    rejection, else its name. When the child succeeds, its two outputs are
    returned as they are, untrimmed. Either way exactly one child is
    spawned. *)
Theorem runIa_outcome (rt : runtime) (w : world) (args : list jsstring)
    (timeoutMs : number) (s s1 : state) (r : Resolved) :
  resolveIaExecutable rt w s = (Ok r, s1) ->
  let answer :=
    w_execFile w (trace s1) (command r) args (runOptions r timeoutMs) in
  (forall out, answer = Ok out ->
     fst (runIa rt w args timeoutMs s) = Ok out)
  /\ (forall error, answer = Throw error -> wasKilled error = false ->
        fst (runIa rt w args timeoutMs s)
        = Throw (newError (lit "ia command failed: " ++ failureCause error)))
  /\ trace (snd (runIa rt w args timeoutMs s))
     = trace s1 ++ [EvExecFile (command r) args (runOptions r timeoutMs)].
Proof.
  intros Hres answer.
  rewrite (runIa_run rt w args timeoutMs s s1 r Hres). fold answer.
  split; [|split].
  - intros out ->. reflexivity.
  - intros error -> Hk. cbn [fst runOutcome]. rewrite Hk.
    now rewrite failureCause_spec.
  - reflexivity.
Qed.

Lemma runIa_outcome_witness :
  let error := {| name := lit "Error"; message := lit "Command failed: ia list x";
                  killed := Some false; stderr := Some (lit "Item not found") |} in
  fst (runIa sampleRuntime (posixWorld (Throw error)) [lit "list"; lit "x"]
         DEFAULT_TIMEOUT_MS initial)
  = Throw (newError "ia command failed: Item not found").
Proof.
  intro error.
  exact (proj1 (proj2 (runIa_outcome sampleRuntime (posixWorld (Throw error))
                         [lit "list"; lit "x"] DEFAULT_TIMEOUT_MS initial
                         {| resolvedIa := Some (direct "ia"); trace := [] |}
                         (direct "ia") eq_refl))
           error eq_refl eq_refl).
Defined.

(** ** How the executable was resolved *)

Lemma post_bind {A B} (m : M A) (k : A -> M B) (Q : B -> state -> Prop) :
  (forall a, post (k a) Q) -> post (bind m k) Q.
Proof.
  intros Hk s b s1. unfold bind.
  destruct (m s) as [[a|e] s']; [apply Hk | discriminate].
Qed.

Lemma post_try_catch {A} (m : M A) (h : exn -> M A) (Q : A -> state -> Prop) :
  post m Q -> (forall e, post (h e) Q) -> post (try_catch m h) Q.
Proof.
  intros Hm Hh s a s1. unfold try_catch.
  destruct (m s) as [[a'|e] s'] eqn:E; [|apply Hh].
  intros [= <- <-]. now apply (Hm s).
Qed.

Lemma post_none (w : world) : post (ret None) (found w).
Proof. intros s a s1 [= <- _] path H. discriminate. Qed.

(** [if (existsSync(candidate)) return candidate], and what follows when it
    does not exist. *)
Lemma post_exists_else (w : world) (candidate : jsstring)
    (k : M (option jsstring)) :
  post k (found w) ->
  post (bind (existsSync w candidate)
          (fun b => if b then ret (Some candidate) else k)) (found w).
Proof.
  intros Hk s o s1. unfold bind, existsSync, ask, ret.
  destruct (w_existsSync w (trace s) candidate) eqn:E.
  - intros [= <- <-] path [= <-]. exists (trace s). auto.
  - apply Hk.
Qed.

Lemma post_exists (w : world) (candidate : jsstring) :
  post (bind (existsSync w candidate)
          (fun b => ret (if b then Some candidate else None))) (found w).
Proof.
  intros s o s1. unfold bind, existsSync, ask, ret.
  destruct (w_existsSync w (trace s) candidate) eqn:E;
    intros [= <- <-] path; [|discriminate].
  intros [= <-]. exists (trace s). auto.
Qed.

(** [if (found) return found], and what follows when nothing was found. *)
Lemma post_pass (w : world) (m k : M (option jsstring)) :
  post m (found w) -> post k (found w) ->
  post (bind m (fun o => match o with
                         | Some candidate => ret (Some candidate)
                         | None => k
                         end)) (found w).
Proof.
  intros Hm Hk s o s1. unfold bind.
  destruct (m s) as [[[c|]|e] s'] eqn:E; [| |discriminate].
  - intros [= <- <-]. now apply (Hm s).
  - apply Hk.
Qed.

Lemma firstExisting_found (w : world) (mk : jsstring -> jsstring)
    (names : list jsstring) :
  post (firstExisting w mk names) (found w).
Proof.
  induction names as [|d ds IH]; cbn [firstExisting].
  - apply post_none.
  - now apply post_exists_else.
Qed.

Lemma probePyenv_found (rt : runtime) (w : world) :
  post (probePyenv rt w) (found w).
Proof.
  unfold probePyenv. cbv zeta.
  apply post_bind. intros [|]; [|apply post_none].
  apply post_bind. intro hasFile. apply post_pass.
  - destruct hasFile; [|apply post_none].
    apply post_bind. intro content.
    apply post_try_catch; [|intro; apply post_none].
    apply post_bind. intro dirs.
    destruct (find _ dirs) as [match_|]; [|apply post_none].
    destruct (JsString.truthy match_); [apply post_exists | apply post_none].
  - apply post_try_catch; [|intro; apply post_none].
    apply post_bind. intro dirs. apply firstExisting_found.
Qed.

Lemma probeBases_found (rt : runtime) (w : world) (bases : list jsstring) :
  post (probeBases rt w bases) (found w).
Proof.
  induction bases as [|base rest IH]; cbn [probeBases].
  - apply post_none.
  - apply post_bind. intros [|]; [|exact IH].
    apply post_pass.
    + destruct (_ && _); [apply post_exists | apply post_none].
    + apply post_pass; [|exact IH].
      apply post_try_catch; [|intro; apply post_none].
      apply post_bind. intro subs. apply firstExisting_found.
Qed.

Lemma probeIaExe_run (w : world) (s : state) :
  probeIaExe w s
  = (Ok match w_execFile w (trace s) "ia.exe" [lit "--version"]
                {| opt_timeout := ofZ 5000; opt_maxBuffer := None;
                   opt_shell := false |} with
        | Ok _ => true
        | Throw _ => false
        end,
     {| resolvedIa := resolvedIa s;
        trace := trace s
                 ++ [EvExecFile "ia.exe" [lit "--version"]
                       {| opt_timeout := ofZ 5000; opt_maxBuffer := None;
                          opt_shell := false |}] |}).
Proof.
  unfold probeIaExe, try_catch, bind, execFileAsync, ask, ret.
  destruct (w_execFile _ _ _ _ _); reflexivity.
Qed.

(** X11. How a first resolution can end. The shell is used only on
    Windows, only with the bare name [ia], and only after the warning was
    written. Otherwise the command is [ia] on a host that is not Windows,
    with nothing asked of the host; or [ia.exe], which has just answered the
    version probe; or a path that the file system has just confirmed to
    exist. *)
Theorem resolveIaExecutable_outcome (rt : runtime) (w : world) (s s1 : state)
    (r : Resolved) :
  resolvedIa s = None ->
  resolveIaExecutable rt w s = (Ok r, s1) ->
  if useShell r then
    IS_WINDOWS w = true /\ command r = lit "ia"
    /\ exists t, trace s1 = t ++ [EvConsoleError SHELL_WARNING]
  else
    (IS_WINDOWS w = false /\ command r = lit "ia" /\ trace s1 = trace s)
    \/ (IS_WINDOWS w = true /\ command r = lit "ia.exe"
        /\ (exists out,
              w_execFile w (trace s) "ia.exe" [lit "--version"]
                {| opt_timeout := ofZ 5000; opt_maxBuffer := None;
                   opt_shell := false |} = Ok out)
        /\ List.length (trace s1) = S (List.length (trace s)))
    \/ (IS_WINDOWS w = true /\ confirmed w (command r) s1).
Proof.
  intros Hnone. unfold resolveIaExecutable. rewrite Hnone.
  unfold resolveFresh.
  destruct (IS_WINDOWS w) eqn:Ew; cbn [negb].
  - unfold bind at 1. rewrite probeIaExe_run.
    destruct (w_execFile w (trace s) _ _ _) as [out|e0] eqn:Ex.
    + intros [= <- <-]. cbn [useShell direct command trace].
      right. left. repeat split; eauto.
      rewrite length_app. cbn [List.length]. lia.
    + set (s' := {| resolvedIa := resolvedIa s; trace := _ |}).
      unfold bind at 1.
      destruct (probePyenv rt w s') as [[[c|]|e] s2] eqn:Ep; [| |discriminate].
      * intros [= <- <-]. cbn [useShell direct command].
        right. right. split; [reflexivity|].
        destruct (probePyenv_found rt w s' (Some c) s2 Ep c eq_refl)
          as (t & Ht & Hw).
        exists t. cbn [trace]. auto.
      * unfold bind at 1.
        destruct (probeBases rt w (pipBases rt w) s2) as [[[c|]|e] s3] eqn:Eb;
          [| |discriminate].
        -- intros [= <- <-]. cbn [useShell direct command].
           right. right. split; [reflexivity|].
           destruct (probeBases_found rt w _ s2 (Some c) s3 Eb c eq_refl)
             as (t & Ht & Hw).
           exists t. cbn [trace]. auto.
        -- intros [= <- <-]. cbn [useShell command trace].
           repeat split. eexists. reflexivity.
  - intros [= <- <-]. cbn [useShell direct command trace]. left. auto.
Qed.

Lemma resolveIaExecutable_outcome_witness :
  confirmed pyenvWorld
    (lit "C:\Users\me\.pyenv\pyenv-win\versions\3.13.7\Scripts\ia.exe")
    (snd (resolveIaExecutable sampleRuntime pyenvWorld initial)).
Proof.
  destruct (resolveIaExecutable_outcome sampleRuntime pyenvWorld initial
              (snd (resolveIaExecutable sampleRuntime pyenvWorld initial))
              (direct "C:\Users\me\.pyenv\pyenv-win\versions\3.13.7\Scripts\ia.exe")
              eq_refl eq_refl) as [H|[H|[_ H]]].
  - destruct H as [H _]. discriminate H.
  - destruct H as (_ & H & _). discriminate H.
  - exact H.
Defined.

(** ** When resolution itself fails *)

Lemma frames_ret {A} (a : A) : frames (ret a).
Proof. intro s. reflexivity. Qed.

Lemma frames_ask {A} (ev : event) (answer : list event -> result A) :
  frames (ask ev answer).
Proof. intro s. reflexivity. Qed.

Lemma frames_bind {A B} (m : M A) (k : A -> M B) :
  frames m -> (forall a, frames (k a)) -> frames (bind m k).
Proof.
  intros Hm Hk s. unfold bind. specialize (Hm s).
  destruct (m s) as [[a|e] s']; cbn [snd] in *; [|exact Hm].
  now rewrite Hk.
Qed.

Lemma frames_try_catch {A} (m : M A) (h : exn -> M A) :
  frames m -> (forall e, frames (h e)) -> frames (try_catch m h).
Proof.
  intros Hm Hh s. unfold try_catch. specialize (Hm s).
  destruct (m s) as [[a|e] s']; cbn [snd] in *; [exact Hm|].
  now rewrite Hh.
Qed.

Create HintDb frames.
#[local] Hint Resolve frames_ret frames_ask frames_bind frames_try_catch
  : frames.

Lemma tor_ret {A} (w : world) (a : A) : throwsOnRead w (ret a).
Proof. intros s e s1 H. discriminate H. Qed.

Lemma tor_bind {A B} (w : world) (m : M A) (k : A -> M B) :
  throwsOnRead w m -> frames m -> (forall a, throwsOnRead w (k a)) ->
  throwsOnRead w (bind m k).
Proof.
  intros Hm Hf Hk s e s1. unfold bind. specialize (Hf s).
  destruct (m s) as [[a|e'] s'] eqn:E; cbn [snd] in Hf.
  - intro H. apply Hk in H. now rewrite <- Hf.
  - intros [= <- <-]. now apply Hm.
Qed.

(** [try { m } catch { }] swallows everything. *)
Lemma tor_swallow {A} (w : world) (m : M A) (a : A) :
  throwsOnRead w (try_catch m (fun _ => ret a)).
Proof.
  intros s e s1. unfold try_catch, ret.
  destruct (m s) as [[a'|e'] s']; discriminate.
Qed.

Lemma tor_existsSync (w : world) (path : jsstring) :
  throwsOnRead w (existsSync w path).
Proof. intros s e s1 H. discriminate H. Qed.

Lemma tor_readFileSync (w : world) (path : jsstring) :
  throwsOnRead w (readFileSync w path).
Proof.
  intros s e s1. unfold readFileSync, ask. intros [= H <-].
  split; [|reflexivity]. exists (trace s), path. auto.
Qed.

Lemma frames_firstExisting (w : world) (mk : jsstring -> jsstring)
    (names : list jsstring) :
  frames (firstExisting w mk names).
Proof.
  induction names as [|d ds IH]; cbn [firstExisting]; [apply frames_ret|].
  apply frames_bind; [apply frames_ask|]. intros [|]; auto with frames.
Qed.

Lemma frames_probePyenv (rt : runtime) (w : world) : frames (probePyenv rt w).
Proof.
  unfold probePyenv, existsSync, readFileSync, readdirSync. cbv zeta.
  apply frames_bind; [apply frames_ask|]. intros [|]; [|apply frames_ret].
  apply frames_bind; [apply frames_ask|]. intro hasFile.
  apply frames_bind.
  - destruct hasFile; [|apply frames_ret].
    apply frames_bind; [apply frames_ask|]. intro content.
    apply frames_try_catch; [|auto with frames].
    apply frames_bind; [apply frames_ask|]. intro dirs.
    destruct (find _ dirs) as [match_|]; [|apply frames_ret].
    destruct (JsString.truthy match_); auto with frames.
  - intros [c|]; [apply frames_ret|].
    apply frames_try_catch; [|auto with frames].
    apply frames_bind; [apply frames_ask|]. intro dirs.
    apply frames_firstExisting.
Qed.

Lemma tor_probePyenv (rt : runtime) (w : world) :
  throwsOnRead w (probePyenv rt w).
Proof.
  unfold probePyenv. cbv zeta.
  apply tor_bind; [apply tor_existsSync | apply frames_ask|].
  intros [|]; [|apply tor_ret].
  apply tor_bind; [apply tor_existsSync | apply frames_ask|]. intro hasFile.
  apply tor_bind.
  - destruct hasFile; [|apply tor_ret].
    apply tor_bind; [apply tor_readFileSync | apply frames_ask|].
    intro content. apply tor_swallow.
  - destruct hasFile; [|apply frames_ret].
    unfold readFileSync, readdirSync, existsSync.
    apply frames_bind; [apply frames_ask|]. intro content.
    apply frames_try_catch; [|auto with frames].
    apply frames_bind; [apply frames_ask|]. intro dirs.
    destruct (find _ dirs) as [match_|]; [|apply frames_ret].
    destruct (JsString.truthy match_); auto with frames.
  - intros [c|]; [apply tor_ret | apply tor_swallow].
Qed.

Lemma frames_probeBases (rt : runtime) (w : world) (bases : list jsstring) :
  frames (probeBases rt w bases).
Proof.
  induction bases as [|base rest IH]; cbn [probeBases]; [apply frames_ret|].
  unfold existsSync, readdirSync.
  apply frames_bind; [apply frames_ask|]. intros [|]; [|exact IH].
  apply frames_bind.
  - destruct (_ && _); auto with frames.
  - intros [c|]; [apply frames_ret|].
    apply frames_bind.
    + apply frames_try_catch; [|auto with frames].
      apply frames_bind; [apply frames_ask|]. intro subs.
      apply frames_firstExisting.
    + intros [c|]; [apply frames_ret | exact IH].
Qed.

Lemma tor_probeBases (rt : runtime) (w : world) (bases : list jsstring) :
  throwsOnRead w (probeBases rt w bases).
Proof.
  induction bases as [|base rest IH]; cbn [probeBases]; [apply tor_ret|].
  apply tor_bind; [apply tor_existsSync | apply frames_ask|].
  intros [|]; [|exact IH].
  apply tor_bind.
  - destruct (_ && _); [|apply tor_ret].
    apply tor_bind; [apply tor_existsSync | apply frames_ask|].
    intro. apply tor_ret.
  - destruct (_ && _); unfold existsSync; auto with frames.
  - intros [c|]; [apply tor_ret|].
    apply tor_bind; [apply tor_swallow| |].
    + apply frames_try_catch; [|auto with frames].
      unfold readdirSync.
      apply frames_bind; [apply frames_ask|]. intro subs.
      apply frames_firstExisting.
    + intros [c|]; [apply tor_ret | exact IH].
Qed.

Lemma tor_setResolved (w : world) (r : Resolved) :
  throwsOnRead w (setResolved r).
Proof. intros s e s1 H. discriminate H. Qed.

Lemma tor_resolveFresh (rt : runtime) (w : world) :
  throwsOnRead w (resolveFresh rt w).
Proof.
  unfold resolveFresh.
  destruct (negb (IS_WINDOWS w)); [apply tor_setResolved|].
  apply tor_bind.
  - intros s e s1. rewrite probeIaExe_run. discriminate.
  - intro s. now rewrite probeIaExe_run.
  - intros [|]; [apply tor_setResolved|].
    apply tor_bind; [apply tor_probePyenv | apply frames_probePyenv|].
    intros [c|]; [apply tor_setResolved|].
    apply tor_bind; [apply tor_probeBases | apply frames_probeBases|].
    intros [c|]; [apply tor_setResolved|].
    apply tor_bind; [|apply frames_ask|intro; apply tor_setResolved].
    intros s e s1 H. discriminate H.
Qed.

(** X12. Resolution can fail, in one way only: on Windows, with nothing
    cached, when the pyenv version file exists and reading it throws. The
    error is the one of the read, which was the last thing asked of the
    host, and nothing is cached, so the next call resolves again. The
    precheck reports the failure as Unavailable; [runIa] lets the error of
    the read through as it is. On a host that is not Windows resolution
    never fails. *)
Theorem resolveIaExecutable_failure (rt : runtime) (w : world) (s s1 : state)
    (e : exn) :
  resolveIaExecutable rt w s = (Throw e, s1) ->
  IS_WINDOWS w = true
  /\ resolvedIa s = None /\ resolvedIa s1 = None
  /\ readFailure w e s1
  /\ checkIaAvailable rt w s = (Throw (newError UNAVAILABLE_MESSAGE), s1)
  /\ forall args timeoutMs, runIa rt w args timeoutMs s = (Throw e, s1).
Proof.
  intro H. assert (Hn : resolvedIa s = None).
  { unfold resolveIaExecutable in H.
    destruct (resolvedIa s); [discriminate | reflexivity]. }
  assert (Hf : resolveFresh rt w s = (Throw e, s1))
    by (unfold resolveIaExecutable in H; now rewrite Hn in H).
  destruct (tor_resolveFresh rt w s e s1 Hf) as [Hr Hc].
  split.
  { destruct (IS_WINDOWS w) eqn:Ew; [reflexivity|].
    unfold resolveFresh in Hf. rewrite Ew in Hf. discriminate Hf. }
  split; [exact Hn|]. split; [congruence|]. split; [exact Hr|]. split.
  - unfold checkIaAvailable, try_catch, bind. now rewrite H.
  - intros args timeoutMs. unfold runIa, bind. now rewrite H.
Qed.

Lemma resolveIaExecutable_failure_witness :
  checkIaAvailable sampleRuntime unreadableWorld initial
  = (Throw (newError UNAVAILABLE_MESSAGE),
     snd (resolveIaExecutable sampleRuntime unreadableWorld initial))
  /\ fst (runIa sampleRuntime unreadableWorld [lit "search"; lit "cats"]
            DEFAULT_TIMEOUT_MS initial)
     = Throw (newError "EACCES: permission denied").
Proof.
  destruct (resolveIaExecutable_failure sampleRuntime unreadableWorld initial
              (snd (resolveIaExecutable sampleRuntime unreadableWorld initial))
              (newError "EACCES: permission denied") eq_refl)
    as (_ & _ & _ & _ & Hcheck & Hrun).
  split; [exact Hcheck|]. now rewrite Hrun.
Defined.

(** ** The second version: quoting for the shell *)

Lemma hasCmdSpecial_spec (arg : jsstring) :
  ShellRunner.hasCmdSpecial arg = true <-> exists c, In c arg /\ isCmdSpecial c.
Proof.
  unfold ShellRunner.hasCmdSpecial. rewrite existsb_exists.
  assert (H : forall c, in_class ShellRunner.cmdSpecial c = true <-> isCmdSpecial c).
  { intro c. unfold isCmdSpecial. cbn.
    rewrite !orb_true_iff, !andb_true_iff, !N.leb_le. lia. }
  split; intros (c & Hin & Hc); exists c; (split; [exact Hin|]);
    now apply H.
Qed.

Lemma hasCmdSpecial_false (arg : jsstring) :
  Forall (fun c => ~ isCmdSpecial c) arg -> ShellRunner.hasCmdSpecial arg = false.
Proof.
  intro H. destruct (ShellRunner.hasCmdSpecial arg) eqn:E; [|reflexivity].
  apply hasCmdSpecial_spec in E as (c & Hin & Hc).
  rewrite Forall_forall in H. now destruct (H c Hin).
Qed.

Lemma nth_map_within (f : jsstring -> jsstring) (l : list jsstring) (i : nat) :
  (i < List.length l)%nat -> nth i (map f l) [] = f (nth i l []).
Proof.
  revert i. induction l as [|a l IH]; intros i Hi; cbn in Hi; [lia|].
  destruct i as [|i]; [reflexivity|]. cbn. apply IH. lia.
Qed.

Lemma doubleQuotes_count (arg : jsstring) :
  count_occ N.eq_dec (ShellRunner.doubleQuotes arg) 34%N
  = 2 * count_occ N.eq_dec arg 34%N.
Proof.
  unfold ShellRunner.doubleQuotes. induction arg as [|c arg IH]; [reflexivity|].
  cbn [flat_map]. rewrite count_occ_app.
  destruct (N.eqb_spec c 34) as [->|Hc].
  - rewrite (count_occ_cons_eq N.eq_dec arg eq_refl).
    cbn [count_occ]. destruct (N.eq_dec 34 34); [lia | congruence].
  - rewrite (count_occ_cons_neq N.eq_dec arg Hc).
    cbn [count_occ]. destruct (N.eq_dec c 34); [congruence | lia].
Qed.

(** X13. The quoting of the second version of the invoker. It never
    changes the number of arguments, and changes none of them off Windows;
    on Windows an argument is changed exactly when it holds one of
    [& | < > ^ %], and is then wrapped in double quotes with the double
    quotes inside doubled, so that quotes stay balanced. A validated
    identifier or field name is never changed. *)
Theorem prepareArgs_spec (w : world) (args : list jsstring) :
  List.length (ShellRunner.prepareArgs w args) = List.length args
  /\ (IS_WINDOWS w = false -> ShellRunner.prepareArgs w args = args)
  /\ (forall i, ShellRunner.hasCmdSpecial (nth i args []) = false ->
        nth i (ShellRunner.prepareArgs w args) [] = nth i args [])
  /\ (IS_WINDOWS w = true ->
      forall i, (i < List.length args)%nat ->
        ShellRunner.hasCmdSpecial (nth i args []) = true ->
        nth i (ShellRunner.prepareArgs w args) []
        = dq ++ ShellRunner.doubleQuotes (nth i args []) ++ dq
        /\ Nat.Even (count_occ N.eq_dec (nth i (ShellRunner.prepareArgs w args) []) 34%N))
  /\ (forall x v,
        validateIdentifier x = Ok v \/ validateFieldName x = Ok v ->
        ShellRunner.hasCmdSpecial v = false).
Proof.
  unfold ShellRunner.prepareArgs, ShellRunner.escapeCmdArg.
  split; [|split; [|split; [|split]]].
  - destruct (IS_WINDOWS w); cbn [negb]; [apply length_map | reflexivity].
  - intros ->. reflexivity.
  - intros i Hi. destruct (IS_WINDOWS w); cbn [negb]; [|reflexivity].
    destruct (Nat.lt_ge_cases i (List.length args)) as [Hlt|Hge].
    + rewrite (nth_map_within _ args i Hlt). now rewrite Hi.
    + rewrite !nth_overflow; [reflexivity | exact Hge | now rewrite length_map].
  - intros -> i Hlt Hi. cbn [negb].
    rewrite (nth_map_within _ args i Hlt), Hi. cbn [negb].
    split; [reflexivity|].
    rewrite !count_occ_app, doubleQuotes_count. unfold dq.
    cbn [count_occ]. destruct (N.eq_dec 34 34); [|congruence].
    exists (S (count_occ N.eq_dec (nth i args []) 34%N)). lia.
  - intros x v H. apply hasCmdSpecial_false.
    destruct H as [H|H].
    + apply validateIdentifier_Ok_iff in H as (_ & _ & _ & Hall).
      eapply Forall_impl; [|exact Hall].
      intros c Hc. unfold isIdentifierChar in Hc. unfold isCmdSpecial. lia.
    + apply validateFieldName_Ok_iff in H
        as (_ & c & rest & -> & Hc & Hall).
      constructor.
      * unfold isFieldStart in Hc. unfold isCmdSpecial. lia.
      * eapply Forall_impl; [|exact Hall].
        intros c' Hc'. unfold isFieldChar in Hc'. unfold isCmdSpecial. lia.
Qed.

Lemma prepareArgs_spec_witness :
  let args := [lit "download"; lit "item1"; lit "--glob"; lit "*|calc"] in
  nth 3 (ShellRunner.prepareArgs pyenvWorld args) []
  = dq ++ ShellRunner.doubleQuotes (nth 3 args []) ++ dq.
Proof.
  intro args.
  exact (proj1 (proj1 (proj2 (proj2 (proj2
           (prepareArgs_spec pyenvWorld args))))
         eq_refl 3%nat ltac:(cbn; lia) eq_refl)).
Defined.

(** ** The three versions of the invoker agree off Windows *)

Lemma resolve_off_windows (rt : runtime) (w : world) (s : state) :
  IS_WINDOWS w = false ->
  resolvedIa s = None \/ resolvedIa s = Some (direct "ia") ->
  resolveIaExecutable rt w s
  = (Ok (direct "ia"),
     {| resolvedIa := Some (direct "ia"); trace := trace s |}).
Proof.
  intros Hw [H|H]; unfold resolveIaExecutable; rewrite H.
  - unfold resolveFresh. rewrite Hw. reflexivity.
  - destruct s as [c t]. cbn in *. now subst c.
Qed.

(** X14. On a host that is not Windows the three versions of the invoker
    do the same thing: the final one resolves to [ia] without a shell and
    without asking anything, and then its [runIa] and its precheck spawn
    the same process, return the same output and throw the same errors as
    those of the first version, which the second version equals outright. *)
Theorem runners_agree_off_windows (rt : runtime) (w : world)
    (args : list jsstring) (timeoutMs : number) (s : state) :
  IS_WINDOWS w = false ->
  resolvedIa s = None \/ resolvedIa s = Some (direct "ia") ->
  fst (runIa rt w args timeoutMs s)
  = fst (PlainRunner.runIa rt w args timeoutMs s)
  /\ trace (snd (runIa rt w args timeoutMs s))
     = trace (snd (PlainRunner.runIa rt w args timeoutMs s))
  /\ fst (checkIaAvailable rt w s) = fst (PlainRunner.checkIaAvailable w s)
  /\ trace (snd (checkIaAvailable rt w s))
     = trace (snd (PlainRunner.checkIaAvailable w s))
  /\ ShellRunner.runIa rt w args timeoutMs s
     = PlainRunner.runIa rt w args timeoutMs s
  /\ ShellRunner.checkIaAvailable w s = PlainRunner.checkIaAvailable w s.
Proof.
  intros Hw Hc.
  pose proof (resolve_off_windows rt w s Hw Hc) as Hres.
  rewrite (runIa_run rt w args timeoutMs s _ _ Hres).
  rewrite (checkIaAvailable_run rt w s _ _ Hres).
  unfold PlainRunner.runIa, PlainRunner.checkIaAvailable,
    ShellRunner.runIa, ShellRunner.checkIaAvailable, ShellRunner.prepareArgs,
    ShellRunner.SHELL_OPTION.
  rewrite Hw. cbn [negb].
  unfold try_catch, bind, execFileAsync, ask, ret, throw, runOutcome,
    runOptions, probeOptions, timeoutMessage.
  cbn [direct command useShell trace fst snd].
  repeat split.
  - destruct (w_execFile _ _ _ _ _) as [out|e]; [reflexivity|].
    destruct (wasKilled e); reflexivity.
  - destruct (w_execFile _ _ _ _ _) as [out|e]; [reflexivity|].
    destruct (wasKilled e); reflexivity.
  - destruct (w_execFile _ _ _ _ _) as [out|e]; reflexivity.
  - destruct (w_execFile _ _ _ _ _) as [out|e]; reflexivity.
Qed.

Lemma runners_agree_off_windows_witness :
  let w := posixWorld (Throw killedError) in
  fst (PlainRunner.runIa sampleRuntime w [lit "list"; lit "x"]
         DEFAULT_TIMEOUT_MS initial)
  = fst (runIa sampleRuntime w [lit "list"; lit "x"] DEFAULT_TIMEOUT_MS initial).
Proof.
  intro w. symmetry.
  apply (runners_agree_off_windows sampleRuntime w [lit "list"; lit "x"]
           DEFAULT_TIMEOUT_MS initial eq_refl (or_introl eq_refl)).
Defined.

(** ** The validators that only measure *)

Lemma lengthOnly_spec (limit : nat) (x v : jsstring) (e1 e2 : exn) :
  (let trimmed := trim x in
   if negb (JsString.truthy trimmed) then Throw e1
   else if (limit <? List.length trimmed)%nat then Throw e2
   else Ok trimmed) = Ok v
  <-> withinLimit limit x v.
Proof.
  unfold withinLimit. cbv zeta.
  destruct (trim x) as [|c t] eqn:E; cbn [JsString.truthy negb].
  - split; [discriminate|]. now intros (-> & H & _).
  - destruct (Nat.ltb_spec limit (List.length (c :: t))) as [Hl|Hl].
    + split; [discriminate|]. intros (-> & _ & H). lia.
    + split.
      * intros [= <-]. split; [reflexivity|]. split; [discriminate | exact Hl].
      * now intros (-> & _).
Qed.

(** X15. The query, the destination directory and the format are checked
    for length only: each is accepted exactly when, trimmed, it is not empty
    and at most 2000, 500 and 100 code units long, whatever its characters,
    and the trimmed string is returned. In particular, and unlike an
    identifier, a field name or a glob pattern, an accepted value may hold
    any character that is not white space, the ampersand and the quotes
    included, alone or inside the value. *)
Theorem lengthOnly_validators_spec (x v : jsstring) :
  (validateQuery x = Ok v <-> withinLimit 2000 x v)
  /\ (validateDestdir x = Ok v <-> withinLimit 500 x v)
  /\ (validateFormat x = Ok v <-> withinLimit 100 x v)
  /\ (forall c : N,
        isWhiteSpace c = false ->
        forall validate,
          In validate [validateQuery; validateDestdir; validateFormat] ->
          validate [c] = Ok [c]
          /\ validate (lit "a" ++ [c] ++ lit " b")
             = Ok (lit "a" ++ [c] ++ lit " b")).
Proof.
  split; [|split; [|split]].
  - apply lengthOnly_spec.
  - apply lengthOnly_spec.
  - apply lengthOnly_spec.
  - intros c Hc validate Hin.
    assert (T1 : trim [c] = [c]).
    { unfold trim, trimEnd, trimStart. cbn. rewrite Hc. cbn. now rewrite Hc. }
    assert (T2 : trim (lit "a" ++ [c] ++ lit " b") = lit "a" ++ [c] ++ lit " b")
      by reflexivity.
    cbn [In] in Hin.
    destruct Hin as [<-|[<-|[<-|[]]]]; split;
      apply lengthOnly_spec; unfold withinLimit;
      rewrite ?T1, ?T2;
      (split; [reflexivity|]; split; [discriminate | cbn; lia]).
Qed.

Lemma lengthOnly_validators_spec_witness :
  validateDestdir " C:/tmp & calc " = Ok (lit "C:/tmp & calc").
Proof.
  apply (proj2 (proj1 (proj2 (lengthOnly_validators_spec
                                " C:/tmp & calc " "C:/tmp & calc")))).
  unfold withinLimit. split; [reflexivity|].
  split; [discriminate | cbn; lia].
Defined.

(** ** The argument vector of a download *)

Lemma pushOption_Ok (iaArgs : list jsstring) (flag : jsstring)
    (validate : jsstring -> result jsstring) (value : option jsstring)
    (out : list jsstring) :
  (forall x v, validate x = Ok v -> v = trim x) ->
  pushOption iaArgs flag validate value = Ok out ->
  out = iaArgs ++ optionFlags flag value
  /\ (forall g, given JsString.truthy value = Some g ->
        validate g = Ok (trim g)).
Proof.
  intros Htrim. unfold pushOption, optionFlags.
  destruct (given JsString.truthy value) as [g|].
  - destruct (validate g) as [v|e] eqn:E; [|discriminate].
    intros [= <-]. pose proof (Htrim _ _ E) as ->.
    split; [reflexivity|]. now intros g' [= <-].
  - intros [= <-]. split; [now rewrite app_nil_r | discriminate].
Qed.

Lemma optionFlags_length (flag : jsstring) (value : option jsstring) :
  (List.length (optionFlags flag value) <= 2)%nat.
Proof.
  unfold optionFlags. destruct (given _ _); cbn; lia.
Qed.

(** X16. The argument vector of a download that validates is the
    subcommand and the trimmed identifier, then [--glob], [--destdir] and
    [--format], in that order, each with its trimmed value and only when it
    was given and is not empty, then [--dry-run] when it was asked for: from
    2 to 9 arguments. Each value in it was accepted by its validator. The
    identifier is checked first, so its error wins over those of the
    options. *)
Theorem downloadPlan_args (args : DownloadArgs) :
  (forall id iaArgs,
     downloadPlan args = Ok (id, iaArgs) ->
     id = trim (identifier args)
     /\ validateIdentifier (identifier args) = Ok id
     /\ iaArgs
        = [lit "download"; id]
          ++ optionFlags "--glob" (glob args)
          ++ optionFlags "--destdir" (destdir args)
          ++ optionFlags "--format" (format args)
          ++ (if isDryRun args then [lit "--dry-run"] else [])
     /\ (2 <= List.length iaArgs <= 9)%nat
     /\ (forall g, given JsString.truthy (glob args) = Some g ->
           validateGlob g = Ok (trim g))
     /\ (forall d, given JsString.truthy (destdir args) = Some d ->
           validateDestdir d = Ok (trim d))
     /\ (forall f, given JsString.truthy (format args) = Some f ->
           validateFormat f = Ok (trim f)))
  /\ (forall e, validateIdentifier (identifier args) = Throw e ->
        downloadPlan args = Throw e)
  /\ (forall id g e,
        validateIdentifier (identifier args) = Ok id ->
        given JsString.truthy (glob args) = Some g ->
        validateGlob g = Throw e ->
        downloadPlan args = Throw e).
Proof.
  split; [|split].
  - intros id iaArgs. unfold downloadPlan.
    destruct (validateIdentifier (identifier args)) as [id'|e] eqn:Ei;
      [|discriminate].
    destruct (pushOption _ "--glob" _ _) as [a1|e] eqn:E1; [|discriminate].
    destruct (pushOption a1 "--destdir" _ _) as [a2|e] eqn:E2; [|discriminate].
    destruct (pushOption a2 "--format" _ _) as [a3|e] eqn:E3; [|discriminate].
    intro H.
    assert (Hid : id = id') by (destruct (isDryRun args); congruence).
    assert (Hargs : iaArgs = if isDryRun args then a3 ++ [lit "--dry-run"]
                             else a3)
      by (destruct (isDryRun args); congruence).
    subst id. clear H.
    apply pushOption_Ok in E1 as [-> G1];
      [|intros x v H; apply (validators_return_trimmed x v); tauto].
    apply pushOption_Ok in E2 as [-> G2];
      [|intros x v H; apply (validators_return_trimmed x v); tauto].
    apply pushOption_Ok in E3 as [-> G3];
      [|intros x v H; apply (validators_return_trimmed x v); tauto].
    split; [apply (validators_return_trimmed (identifier args) id'); tauto|].
    split; [reflexivity|].
    split; [rewrite Hargs; destruct (isDryRun args);
            now rewrite <- ?app_assoc, ?app_nil_r|].
    split; [|now repeat split].
    pose proof (optionFlags_length "--glob" (glob args)).
    pose proof (optionFlags_length "--destdir" (destdir args)).
    pose proof (optionFlags_length "--format" (format args)).
    rewrite Hargs.
    destruct (isDryRun args); rewrite ?length_app; cbn [List.length]; lia.
  - intros e H. unfold downloadPlan. now rewrite H.
  - intros id g e Hi Hg He. unfold downloadPlan, pushOption.
    now rewrite Hi, Hg, He.
Qed.

Lemma downloadPlan_args_witness :
  let args := {| identifier := " item1 "; glob := Some (lit "*.pdf");
                 destdir := Some (lit ""); format := Some (lit " Text PDF ");
                 dry_run := Some true |} in
  [lit "download"; lit "item1"; lit "--glob"; lit "*.pdf";
   lit "--format"; lit "Text PDF"; lit "--dry-run"]
  = [lit "download"; lit "item1"]
    ++ optionFlags "--glob" (glob args)
    ++ optionFlags "--destdir" (destdir args)
    ++ optionFlags "--format" (format args)
    ++ (if isDryRun args then [lit "--dry-run"] else []).
Proof.
  intro args.
  exact (proj1 (proj2 (proj2 (proj1 (downloadPlan_args args) _ _ eq_refl)))).
Defined.
